(** * Shallow embedding of [tarjan.py] (class [PlanarityTester])

    The Python class keeps all of its working data on [self]; here the
    object is a record [Tester] that is threaded through every method.
    Python exceptions are results of the error monad [result]; loops and
    recursion whose termination is not structural take a [fuel] argument
    and answer [Diverge] when it runs out.

    Integers are unbounded, as Python's are. Two things of the Python
    run time are left out: the recursion limit of the interpreter (a
    deep traversal is limited by [fuel] only), and the keys a read of a
    [defaultdict] creates (a key created by a read holds the empty list,
    which is what a missing key reads as). *)

From stdpp Require Import base option list gmap.
From Stdlib Require Import ZArith Lia Sorting.Sorted Sorting.Permutation.

Local Open Scope Z_scope.

(** ** Outcomes of Python code *)

Inductive exn : Type := IndexError.

Inductive result (A : Type) : Type :=
  | Ok (a : A)
  | Raise (e : exn)
  | Diverge.

Arguments Ok {A} a.
Arguments Raise {A} e.
Arguments Diverge {A}.

#[global] Instance result_ret : MRet result := fun A a => Ok a.
#[global] Instance result_bind : MBind result := fun A B f m =>
  match m with
  | Ok a => f a
  | Raise e => Raise e
  | Diverge => Diverge
  end.

(** ** Python lists indexed by an [int]

    [l[i]] accepts [0 <= i < len l] and, counting from the end,
    [-len l <= i < 0]; anything else raises [IndexError]. *)

Definition py_index (len : nat) (i : Z) : option nat :=
  if (0 <=? i) && (i <? Z.of_nat len) then Some (Z.to_nat i)
  else if (- Z.of_nat len <=? i) && (i <? 0) then Some (Z.to_nat (Z.of_nat len + i))
  else None.

Definition getitem (l : list Z) (i : Z) : result Z :=
  match py_index (length l) i with
  | Some n => match l !! n with Some x => Ok x | None => Raise IndexError end
  | None => Raise IndexError
  end.

Definition setitem (l : list Z) (i : Z) (x : Z) : result (list Z) :=
  match py_index (length l) i with
  | Some n => Ok (<[n := x]> l)
  | None => Raise IndexError
  end.

(** [range(n)] *)
Definition range (n : Z) : list Z := map Z.of_nat (seq 0 (Z.to_nat n)).

(** ** The data model *)

(** [class Edge]: [sign] is [1] for a tree edge and [-1] for a back edge. *)
Record Edge : Type := mkEdge { v1 : Z; v2 : Z; sign : Z }.

(** [class PlanarityTester]. The attribute [nesting_depth] is never read
    or written after construction and is left out. *)
Record Tester : Type := mkTester {
  V : Z;
  graph : gmap Z (list Z);
  num : list Z;
  lowpt : list Z;
  lowpt2 : list Z;
  parent : list Z;
  counter : Z;
  edges : list Edge;
  sorted_edges : list Edge
}.

Definition set_graph (s : Tester) (g : gmap Z (list Z)) : Tester :=
  mkTester (V s) g (num s) (lowpt s) (lowpt2 s) (parent s) (counter s) (edges s) (sorted_edges s).
Definition set_num (s : Tester) (l : list Z) : Tester :=
  mkTester (V s) (graph s) l (lowpt s) (lowpt2 s) (parent s) (counter s) (edges s) (sorted_edges s).
Definition set_lowpt (s : Tester) (l : list Z) : Tester :=
  mkTester (V s) (graph s) (num s) l (lowpt2 s) (parent s) (counter s) (edges s) (sorted_edges s).
Definition set_lowpt2 (s : Tester) (l : list Z) : Tester :=
  mkTester (V s) (graph s) (num s) (lowpt s) l (parent s) (counter s) (edges s) (sorted_edges s).
Definition set_parent (s : Tester) (l : list Z) : Tester :=
  mkTester (V s) (graph s) (num s) (lowpt s) (lowpt2 s) l (counter s) (edges s) (sorted_edges s).
Definition set_counter (s : Tester) (c : Z) : Tester :=
  mkTester (V s) (graph s) (num s) (lowpt s) (lowpt2 s) (parent s) c (edges s) (sorted_edges s).
Definition set_edges (s : Tester) (l : list Edge) : Tester :=
  mkTester (V s) (graph s) (num s) (lowpt s) (lowpt2 s) (parent s) (counter s) l (sorted_edges s).
Definition set_sorted_edges (s : Tester) (l : list Edge) : Tester :=
  mkTester (V s) (graph s) (num s) (lowpt s) (lowpt2 s) (parent s) (counter s) (edges s) l.

(** [self.graph[v]] on a [defaultdict(list)]: a missing key reads as the
    empty list. (The read also stores the empty list under the key; no
    later read can tell, and the map is left as it is.) *)
Definition adj (s : Tester) (v : Z) : list Z := default [] (graph s !! v).

(** [PlanarityTester.__init__] *)
Definition init (vertices : Z) : Tester :=
  let blank := replicate (Z.to_nat vertices) (-1) in
  mkTester vertices ∅ blank blank blank blank 0 [] [].

(** [PlanarityTester.add_edge]: two appends, nothing is checked. The two
    statements run in sequence, so for [u = v] the list of [u] receives
    [v] twice. *)
Definition add_edge (s : Tester) (u v : Z) : result Tester :=
  let s1 := set_graph s (<[u := adj s u ++ [v]]> (graph s)) in
  Ok (set_graph s1 (<[v := adj s1 v ++ [u]]> (graph s1))).

(** ** DFS numbering *)

(** The [for w in self.graph[v]] loop of [_compute_numbers]; [rec] is the
    recursive call. *)
Definition numbers_loop (rec : Z → Tester → result (bool * Tester)) (v : Z)
  : list Z → Tester → result (bool * Tester) :=
  fix loop (ws : list Z) (s : Tester) {struct ws} : result (bool * Tester) :=
    match ws with
    | [] => Ok (true, s)
    | w :: ws =>
      nw ← getitem (num s) w;
      if nw =? -1 then
        p ← setitem (parent s) w v;
        let s := set_parent s p in
        let s := set_edges s (edges s ++ [mkEdge v w 1]) in
        '(ok, s) ← rec w s;
        if ok : bool then loop ws s else Ok (false, s)
      else
        nv ← getitem (num s) v;
        if nw <? nv then
          pv ← getitem (parent s) v;
          if negb (w =? pv) then
            loop ws (set_edges s (edges s ++ [mkEdge v w (-1)]))
          else loop ws s
        else loop ws s
    end.

Fixpoint _compute_numbers (fuel : nat) (v : Z) (s : Tester) : result (bool * Tester) :=
  match fuel with
  | O => Diverge
  | S fuel =>
    let s := set_counter s (counter s + 1) in
    n ← setitem (num s) v (counter s);
    let s := set_num s n in
    numbers_loop (_compute_numbers fuel) v (adj s v) s
  end.

(** ** Lowpoints *)

(** The inner [for w in self.graph[v]] loop of [_compute_lowpoints]. *)
Fixpoint lowpoints_loop (v : Z) (ws : list Z) (s : Tester) : result Tester :=
  match ws with
  | [] => Ok s
  | w :: ws =>
    nw ← getitem (num s) w;
    nv ← getitem (num s) v;
    back ← (if nw <? nv then pv ← getitem (parent s) v; Ok (negb (nw =? pv))
            else Ok false);
    if back : bool then
      lv ← getitem (lowpt s) v;
      nw ← getitem (num s) w;
      l ← setitem (lowpt s) v (Z.min lv nw);
      lowpoints_loop v ws (set_lowpt s l)
    else
      nw ← getitem (num s) w;
      nv ← getitem (num s) v;
      if nw >? nv then
        lv ← getitem (lowpt s) v;
        lw ← getitem (lowpt s) w;
        l ← setitem (lowpt s) v (Z.min lv lw);
        let s := set_lowpt s l in
        lv2 ← getitem (lowpt2 s) v;
        lw2 ← getitem (lowpt2 s) w;
        l2 ← setitem (lowpt2 s) v (Z.min lv2 lw2);
        lowpoints_loop v ws (set_lowpt2 s l2)
      else lowpoints_loop v ws s
  end.

(** The body of [for v in range(self.V)]. *)
Definition lowpoints_vertex (v : Z) (s : Tester) : result Tester :=
  nv ← getitem (num s) v;
  if negb (nv =? -1) then
    nv ← getitem (num s) v;
    l ← setitem (lowpt s) v nv;
    let s := set_lowpt s l in
    nv ← getitem (num s) v;
    l2 ← setitem (lowpt2 s) v nv;
    let s := set_lowpt2 s l2 in
    lowpoints_loop v (adj s v) s
  else Ok s.

Fixpoint lowpoints_range (vs : list Z) (s : Tester) : result Tester :=
  match vs with
  | [] => Ok s
  | v :: vs => s ← lowpoints_vertex v s; lowpoints_range vs s
  end.

Definition _compute_lowpoints (s : Tester) : result Tester :=
  lowpoints_range (range (V s)) s.

(** ** Edge ordering *)

(** [edge_key] inside [_sort_edges]; the key is a pair of integers. *)
Definition edge_key (s : Tester) (e : Edge) : result (Z * Z) :=
  if sign e =? 1 then n ← getitem (num s) (v2 e); Ok (n, 0)
  else n ← getitem (num s) (v1 e); Ok (n, 1).

(** Python's [<] on tuples of two integers. *)
Definition key_ltb (a b : Z * Z) : bool :=
  (a.1 <? b.1) || ((a.1 =? b.1) && (a.2 <? b.2)).

(** [sorted(xs, key=...)] first computes the key of every element, left
    to right, and then sorts stably on the keys. *)
Fixpoint decorate (s : Tester) (es : list Edge) : result (list ((Z * Z) * Edge)) :=
  match es with
  | [] => Ok []
  | e :: es => k ← edge_key s e; r ← decorate s es; Ok ((k, e) :: r)
  end.

(** Insertion in front of the first element whose key is not smaller:
    an element inserted this way stays before later elements of equal
    key, which makes [stable_sort] stable. *)
Fixpoint insert_by_key {A : Type} (x : (Z * Z) * A) (l : list ((Z * Z) * A))
  : list ((Z * Z) * A) :=
  match l with
  | [] => [x]
  | y :: l' => if key_ltb y.1 x.1 then y :: insert_by_key x l' else x :: l
  end.

Definition stable_sort {A : Type} (l : list ((Z * Z) * A)) : list ((Z * Z) * A) :=
  foldr insert_by_key [] l.

Definition _sort_edges (s : Tester) : result Tester :=
  d ← decorate s (edges s);
  Ok (set_sorted_edges s (map snd (stable_sort d))).

(** ** The interval stack test *)

(** [_edges_cross]. [sorted([a, b], key=num)] of a two element list swaps
    the pair exactly when [num[b] < num[a]]. *)
Definition _edges_cross (s : Tester) (edge1 edge2 : Edge) : result bool :=
  a1 ← getitem (num s) (v1 edge1);
  b1 ← getitem (num s) (v2 edge1);
  let '(lo1, hi1) := if b1 <? a1 then (b1, a1) else (a1, b1) in
  a2 ← getitem (num s) (v1 edge2);
  b2 ← getitem (num s) (v2 edge2);
  let '(lo2, hi2) := if b2 <? a2 then (b2, a2) else (a2, b2) in
  Ok (((lo1 <? lo2) && (lo2 <? hi1) && (hi1 <? hi2))
      || ((lo2 <? lo1) && (lo1 <? hi2) && (hi2 <? hi1))).

(** The nested loops of [_merge_edges]: [true] when some edge of [bucket]
    crosses some edge of [target]. *)
Fixpoint crosses_any (s : Tester) (edge1 : Edge) (target : list Edge) : result bool :=
  match target with
  | [] => Ok false
  | edge2 :: target =>
    c ← _edges_cross s edge1 edge2;
    if c : bool then Ok true else crosses_any s edge1 target
  end.

Fixpoint bucket_crosses (s : Tester) (bucket target : list Edge) : result bool :=
  match bucket with
  | [] => Ok false
  | edge1 :: bucket =>
    c ← crosses_any s edge1 target;
    if c : bool then Ok true else bucket_crosses s bucket target
  end.

(** [_merge_edges]. The target list is mutated in place by the source;
    here the call returns its verdict together with the target as it is
    after the call. [None] and the empty list are both falsy, so neither
    receives the bucket. *)
Definition _merge_edges (s : Tester) (bucket : list Edge) (target : option (list Edge))
  : result (bool * option (list Edge)) :=
  match target with
  | None => Ok (true, None)
  | Some [] => Ok (true, Some [])
  | Some t =>
    c ← bucket_crosses s bucket t;
    if c : bool then Ok (false, Some t) else Ok (true, Some (t ++ bucket))
  end.

(** [_compute_nesting_depth]: the [while] loop, with its local [v] and
    [depth]. *)
Fixpoint nesting_loop (fuel : nat) (s : Tester) (v w : Z) (depth : Z) : result Z :=
  match fuel with
  | O => Diverge
  | S fuel =>
    nv ← getitem (num s) v;
    nw ← getitem (num s) w;
    if nv >? nw then
      pv ← getitem (parent s) v;
      nesting_loop fuel s pv w (depth + 1)
    else Ok depth
  end.

Definition _compute_nesting_depth (fuel : nat) (s : Tester) (edge : Edge) : result Z :=
  nesting_loop fuel s (v1 edge) (v2 edge) 0.

(** The state of the fold in [_test_planarity]. The bucket stack is a
    list whose head is the top of the stack ([stack[-1]]). *)
Record Frame : Type := mkFrame { stack : list (list Edge); current_height : Z }.

(** What one iteration of the [for] loop does: go on with a new frame, or
    leave the method with [return False]. *)
Inductive Step : Type :=
  | Continue (f : Frame)
  | NonPlanar.

(** [while len(stack) > height]: pop the top bucket and merge it into the
    bucket below. [top :: rest] is the stack on entry; [list.pop] on an
    empty list raises [IndexError]. *)
Fixpoint unwind (s : Tester) (height : Z) (top : list Edge) (rest : list (list Edge))
    (h : Z) {struct rest} : result Step :=
  if Z.of_nat (length (top :: rest)) >? height then
    match rest with
    | [] =>
      '(ok, _) ← _merge_edges s top None;
      if ok : bool then
        if 0 >? height then Raise IndexError else Ok (Continue (mkFrame [] (h - 1)))
      else Ok NonPlanar
    | target :: rest' =>
      '(ok, target') ← _merge_edges s top (Some target);
      if ok : bool then unwind s height (default [] target') rest' (h - 1)
      else Ok NonPlanar
    end
  else Ok (Continue (mkFrame (top :: rest) h)).

(** The [else] branch of the loop body: a back edge. *)
Definition back_edge_step (fuel : nat) (s : Tester) (f : Frame) (edge : Edge) : result Step :=
  height ← _compute_nesting_depth fuel s edge;
  if height >? current_height f then Ok NonPlanar
  else
    r ← match stack f with
        | [] => if 0 >? height then Raise IndexError else Ok (Continue f)
        | top :: rest => unwind s height top rest (current_height f)
        end;
    match r with
    | NonPlanar => Ok NonPlanar
    | Continue f' =>
      match stack f' with
      | [] => Ok (Continue f')
      | top :: rest => Ok (Continue (mkFrame ((top ++ [edge]) :: rest) (current_height f')))
      end
    end.

(** The loop body. *)
Definition edge_step (fuel : nat) (s : Tester) (f : Frame) (edge : Edge) : result Step :=
  if sign edge =? 1 then
    Ok (Continue (mkFrame ([] :: stack f) (current_height f + 1)))
  else back_edge_step fuel s f edge.

(** [while len(stack) > 1] after the loop. *)
Fixpoint clean_up (s : Tester) (top : list Edge) (rest : list (list Edge)) : result bool :=
  match rest with
  | [] => Ok true
  | target :: rest' =>
    '(ok, target') ← _merge_edges s top (Some target);
    if ok : bool then clean_up s (default [] target') rest' else Ok false
  end.

Fixpoint test_loop (fuel : nat) (s : Tester) (es : list Edge) (f : Frame) : result bool :=
  match es with
  | [] =>
    match stack f with
    | [] => Ok true
    | top :: rest => clean_up s top rest
    end
  | edge :: es =>
    r ← edge_step fuel s f edge;
    match r with
    | NonPlanar => Ok false
    | Continue f' => test_loop fuel s es f'
    end
  end.

Definition _test_planarity (fuel : nat) (s : Tester) : result bool :=
  test_loop fuel s (sorted_edges s) (mkFrame [] 0).

(** The frame the [for] loop has reached after the edges [es], for
    looking at the loop part of the way through. *)
Fixpoint run_steps (fuel : nat) (s : Tester) (es : list Edge) (f : Frame) : result Step :=
  match es with
  | [] => Ok (Continue f)
  | edge :: es =>
    r ← edge_step fuel s f edge;
    match r with
    | NonPlanar => Ok NonPlanar
    | Continue f' => run_steps fuel s es f'
    end
  end.

(** [is_planar]; the tester as the call leaves it is returned with the
    verdict. *)
Definition is_planar (fuel : nat) (s : Tester) : result (bool * Tester) :=
  '(ok, s) ← _compute_numbers fuel 0 s;
  if negb ok then Ok (false, s)
  else
    s ← _compute_lowpoints s;
    s ← _sort_edges s;
    b ← _test_planarity fuel s;
    Ok (b, s).

(** ** Building graphs *)

(** A run of [add_edge] calls on a new tester. *)
Fixpoint add_edges (s : Tester) (es : list (Z * Z)) : result Tester :=
  match es with
  | [] => Ok s
  | (u, v) :: es => s ← add_edge s u v; add_edges s es
  end.

Definition build (vertices : Z) (es : list (Z * Z)) : result Tester :=
  add_edges (init vertices) es.

(** The pairs [(i, j)], [lo <= i < j < hi], in the order of the nested
    [for] loops of the K5 example. *)
Definition complete_pairs (lo hi : Z) : list (Z * Z) :=
  flat_map (fun i => map (fun j => (i, j)) (map (Z.add (i + 1)) (range (hi - (i + 1)))))
           (map (Z.add lo) (range (hi - lo))).

(** The boolean an [is_planar] call returns. *)
Definition verdict (r : result (bool * Tester)) : result bool :=
  '(b, _) ← r; Ok b.

(** The tester a run of [add_edge] calls leaves, evaluated. *)
Definition built (vertices : Z) (es : list (Z * Z)) : Tester :=
  match build vertices es with Ok s => s | _ => init vertices end.

(** The two examples at the end of [tarjan.py] and other small graphs. *)
Definition K4_demo : Tester := Eval vm_compute in built 4 (complete_pairs 0 4).
Definition K5_demo : Tester := Eval vm_compute in built 5 (complete_pairs 0 5).
Definition triangle : Tester := Eval vm_compute in built 3 [(0, 1); (1, 2); (0, 2)].
Definition single_edge : Tester := Eval vm_compute in built 2 [(0, 1)].
(** Vertex 0 alone, and a K5 on the vertices 1..5. *)
Definition isolated_plus_K5 : Tester := Eval vm_compute in built 6 (complete_pairs 1 6).
(** The triangle tester after numbering, lowpoints and edge ordering. *)
Definition triangle_sorted : Tester :=
  Eval vm_compute in
    match (s1 ← _compute_numbers 4 0 triangle; s2 ← _compute_lowpoints s1.2; _sort_edges s2)
    with Ok s => s | _ => triangle end.
(** The cycle 0 - 1 - 2 - 3 - 0 with a vertex 4 joined to 3 and 2, and
    its tester after numbering, lowpoints and edge ordering. *)
Definition chord_graph : Tester :=
  Eval vm_compute in built 5 [(0, 1); (1, 2); (2, 3); (3, 0); (3, 4); (4, 2)].
Definition chord_sorted : Tester :=
  Eval vm_compute in
    match (s1 ← _compute_numbers 6 0 chord_graph; s2 ← _compute_lowpoints s1.2; _sort_edges s2)
    with Ok s => s | _ => chord_graph end.
(** The triangle tester as a first call of [is_planar] leaves it. *)
Definition triangle_once : Tester :=
  Eval vm_compute in match is_planar 4 triangle with Ok (_, s) => s | _ => triangle end.
(** The triangle tester as a second call of [is_planar] leaves it. *)
Definition triangle_twice : Tester :=
  Eval vm_compute in
    match is_planar 4 triangle_once with Ok (_, s) => s | _ => triangle_once end.
(** Vertex 0 joined to 1 and to 2: the tester as built, as a first call
    of [is_planar] leaves it, and as a second call has it after its
    numbering and after its lowpoints and edge ordering. *)
Definition fork : Tester := Eval vm_compute in built 3 [(0, 1); (0, 2)].
Definition fork_once : Tester :=
  Eval vm_compute in match is_planar 4 fork with Ok (_, s) => s | _ => fork end.
Definition fork_twice_numbered : Tester :=
  Eval vm_compute in
    match _compute_numbers 1 0 fork_once with Ok (_, s) => s | _ => fork_once end.
Definition fork_twice_sorted : Tester :=
  Eval vm_compute in
    match (s2 ← _compute_lowpoints fork_twice_numbered; _sort_edges s2)
    with Ok s => s | _ => fork_once end.

(** ** Predicates and auxiliary definitions of the proofs *)

(** The part of the tester a numbering run leaves alone, and how the rest
    may change: the lists keep their lengths, the counter does not
    decrease, and edges are only appended. *)
Record numbering_frame (s s' : Tester) : Prop := {
  nf_V : V s' = V s;
  nf_graph : graph s' = graph s;
  nf_lowpt : lowpt s' = lowpt s;
  nf_lowpt2 : lowpt2 s' = lowpt2 s;
  nf_sorted : sorted_edges s' = sorted_edges s;
  nf_num : length (num s') = length (num s);
  nf_parent : length (parent s') = length (parent s);
  nf_counter : counter s ≤ counter s';
  nf_edges : ∃ new, edges s' = edges s ++ new
}.

(** A tester is well formed when its four arrays have [V] cells, every
    adjacency entry is a vertex of [0, V), the counter is not negative
    and no cell of [lowpt] exceeds the same cell of [lowpt2]. [__init__]
    followed by [add_edge] calls on vertices of [0, V) gives such a
    tester, and the phases of [is_planar] keep it so. *)
Record wf (s : Tester) : Prop := {
  wf_num : Z.of_nat (length (num s)) = V s;
  wf_parent : Z.of_nat (length (parent s)) = V s;
  wf_lowpt : Z.of_nat (length (lowpt s)) = V s;
  wf_lowpt2 : Z.of_nat (length (lowpt2 s)) = V s;
  wf_adj : ∀ v w, w ∈ adj s v → 0 ≤ w < V s;
  wf_counter : 0 ≤ counter s;
  wf_low : ∀ i x y, lowpt s !! i = Some x → lowpt2 s !! i = Some y → x ≤ y
}.

(** The number of cells of [num] that still hold [-1]. *)
Fixpoint unvisited (l : list Z) : nat :=
  match l with
  | [] => 0
  | n :: l => ((if (n =? -1)%Z then 1 else 0) + unvisited l)%nat
  end.

(** What [_compute_lowpoints] leaves alone. *)
Record lowpoint_frame (s s' : Tester) : Prop := {
  lf_V : V s' = V s;
  lf_graph : graph s' = graph s;
  lf_num : num s' = num s;
  lf_parent : parent s' = parent s;
  lf_counter : counter s' = counter s;
  lf_edges : edges s' = edges s;
  lf_sorted : sorted_edges s' = sorted_edges s
}.

(** One vertex of the outer loop, seen from cell [i] of [lowpt]: the
    other cells are not written, and cell [i] does not grow. *)
Record lowpt_descent (i : nat) (s s' : Tester) : Prop := {
  ld_frame : lowpoint_frame s s';
  ld_others : ∀ j, j ≠ i → lowpt s' !! j = lowpt s !! j;
  ld_cell : ∀ x, lowpt s !! i = Some x → ∃ x', lowpt s' !! i = Some x' ∧ x' ≤ x
}.

(** The value of cell [v] of an array, for a vertex of [0, V). *)
Definition cell (l : list Z) (v : Z) : Z := default 0 (l !! Z.to_nat v).

(** The right-hand sides of the lowpoint equations, read off the
    classified edges: the back edges leaving [v] and the tree edges from
    [v] to its children. *)
Definition back_targets (s : Tester) (v : Z) : list Z :=
  map v2 (filter (λ e, sign e = -1 ∧ v1 e = v) (edges s)).

Definition tree_children (s : Tester) (v : Z) : list Z :=
  map v2 (filter (λ e, sign e = 1 ∧ v1 e = v) (edges s)).

Definition lowpt_equation (s : Tester) (v : Z) : Z :=
  foldr Z.min (cell (num s) v)
    (map (cell (num s)) (back_targets s v) ++ map (cell (lowpt s)) (tree_children s v)).

Definition lowpt2_equation (s : Tester) (v : Z) : Z :=
  foldr Z.min (cell (num s) v) (map (cell (lowpt2 s)) (tree_children s v)).

(** [a] is not after [b]: Python's [not (b < a)]. *)
Definition key_le (a b : Z * Z) : Prop := key_ltb b a = false.

(** The key of an edge as a total function (it is read only where
    [edge_key] succeeds). *)
Definition key_of (s : Tester) (e : Edge) : Z * Z :=
  match edge_key s e with Ok k => k | _ => (0, 0) end.

(** The key of an edge in the words of the specification: the number of
    the child endpoint of a tree edge and of the ancestor endpoint of a
    back edge. The numbering stores both as [v2]. *)
Definition spec_edge_key (s : Tester) (e : Edge) : result Z := getitem (num s) (v2 e).

Definition ordered_by_spec_key (s : Tester) (l : list Edge) : Prop :=
  StronglySorted
    (λ a b, ∃ ka kb, spec_edge_key s a = Ok ka ∧ spec_edge_key s b = Ok kb ∧ ka ≤ kb) l.

Definition K5_lowpoints : Tester :=
  Eval vm_compute in
    match (s1 ← _compute_numbers 6 0 K5_demo; _compute_lowpoints s1.2)
    with Ok s => s | _ => K5_demo end.

Definition K5_sorted : Tester :=
  Eval vm_compute in match _sort_edges K5_lowpoints with Ok s => s | _ => K5_demo end.


(** Every numbered cell of [num] belongs to a vertex of [C]. *)
Definition numbered_in (C : Z → Prop) (s : Tester) : Prop :=
  ∀ i x, num s !! i = Some x → x ≠ -1 → C (Z.of_nat i).

(** A numbered cell stays numbered (possibly with another number)
    through a numbering run that starts with a counter [>= 0]. *)
Definition stays_numbered (s s' : Tester) : Prop :=
  ∀ i x, num s !! i = Some x → x ≠ -1 → ∃ x', num s' !! i = Some x' ∧ x' ≠ -1.

(** The entry point in the words of the specification: numbering,
    lowpoints, edge order and bucket stack are computed anew on each
    invocation. The call starts from the arrays, the counter and the edge
    lists of a new tester on the same graph; this reset is the one
    place where it differs from [is_planar]. *)
Definition spec_is_planar (fuel : nat) (s : Tester) : result (bool * Tester) :=
  is_planar fuel (set_graph (init (V s)) (graph s)).

(** The interval stack test in the words of the specification: a popped
    bucket is merged into the bucket that is the new top of the stack,
    and the merge fails exactly when an edge of the popped bucket crosses
    an edge of the target. These definitions differ from [_merge_edges],
    [unwind], [back_edge_step], [edge_step], [clean_up] and [test_loop]
    in one place: [spec_merge_edges] extends an empty target too. *)
Definition spec_merge_edges (s : Tester) (bucket : list Edge) (target : option (list Edge))
  : result (bool * option (list Edge)) :=
  match target with
  | None => Ok (true, None)
  | Some t =>
    c ← bucket_crosses s bucket t;
    if c : bool then Ok (false, Some t) else Ok (true, Some (t ++ bucket))
  end.

Fixpoint spec_unwind (s : Tester) (height : Z) (top : list Edge) (rest : list (list Edge))
    (h : Z) {struct rest} : result Step :=
  if Z.of_nat (length (top :: rest)) >? height then
    match rest with
    | [] =>
      if 0 >? height then Raise IndexError else Ok (Continue (mkFrame [] (h - 1)))
    | target :: rest' =>
      '(ok, target') ← spec_merge_edges s top (Some target);
      if ok : bool then spec_unwind s height (default [] target') rest' (h - 1)
      else Ok NonPlanar
    end
  else Ok (Continue (mkFrame (top :: rest) h)).

Definition spec_back_edge_step (fuel : nat) (s : Tester) (f : Frame) (edge : Edge)
  : result Step :=
  height ← _compute_nesting_depth fuel s edge;
  if height >? current_height f then Ok NonPlanar
  else
    r ← match stack f with
        | [] => if 0 >? height then Raise IndexError else Ok (Continue f)
        | top :: rest => spec_unwind s height top rest (current_height f)
        end;
    match r with
    | NonPlanar => Ok NonPlanar
    | Continue f' =>
      match stack f' with
      | [] => Ok (Continue f')
      | top :: rest => Ok (Continue (mkFrame ((top ++ [edge]) :: rest) (current_height f')))
      end
    end.

Definition spec_edge_step (fuel : nat) (s : Tester) (f : Frame) (edge : Edge) : result Step :=
  if sign edge =? 1 then
    Ok (Continue (mkFrame ([] :: stack f) (current_height f + 1)))
  else spec_back_edge_step fuel s f edge.

Fixpoint spec_clean_up (s : Tester) (top : list Edge) (rest : list (list Edge)) : result bool :=
  match rest with
  | [] => Ok true
  | target :: rest' =>
    '(ok, target') ← spec_merge_edges s top (Some target);
    if ok : bool then spec_clean_up s (default [] target') rest' else Ok false
  end.

Fixpoint spec_test_loop (fuel : nat) (s : Tester) (es : list Edge) (f : Frame) : result bool :=
  match es with
  | [] =>
    match stack f with
    | [] => Ok true
    | top :: rest => spec_clean_up s top rest
    end
  | edge :: es =>
    r ← spec_edge_step fuel s f edge;
    match r with
    | NonPlanar => Ok false
    | Continue f' => spec_test_loop fuel s es f'
    end
  end.

(** K5 without the edges 0 - 2 and 0 - 4, a planar graph, and its tester
    after numbering, lowpoints and edge ordering. *)
Definition K5_less_two : Tester :=
  Eval vm_compute in
    built 5 [(0, 1); (0, 3); (1, 2); (1, 3); (1, 4); (2, 3); (2, 4); (3, 4)].
Definition K5_less_two_sorted : Tester :=
  Eval vm_compute in
    match (s1 ← _compute_numbers 6 0 K5_less_two; s2 ← _compute_lowpoints s1.2; _sort_edges s2)
    with Ok s => s | _ => K5_less_two end.

(** The bucket stack is as high as [current_height] says. *)
Definition balanced (f : Frame) : Prop := Z.of_nat (length (stack f)) = current_height f.

(** ** Further definitions: the graph store *)

(** The vertices the calls [add_edge(u, v)] of [es] put into the
    adjacency list of [x], in the order of the calls: [v] for a call with
    [u = x], then [u] for a call with [v = x]. *)
Definition incident (x : Z) (es : list (Z * Z)) : list Z :=
  flat_map (λ e, (if decide (e.1 = x) then [e.2] else [])
                 ++ (if decide (e.2 = x) then [e.1] else [])) es.

(** Two edges have an endpoint in common. *)
Definition share_endpoint (e1 e2 : Edge) : Prop :=
  v1 e1 = v1 e2 ∨ v1 e1 = v2 e2 ∨ v2 e1 = v1 e2 ∨ v2 e1 = v2 e2.

(** ** Further definitions: what the first traversal establishes *)

(** The DFS numbers an array holds. *)
Definition numbers (l : list Z) : list Z := filter (λ x, x ≠ -1) l.

(** Cells of [num] that hold a number keep it, and the same cells of
    [parent] are not written. *)
Definition frozen (s s' : Tester) : Prop :=
  ∀ i x, num s !! i = Some x → x ≠ -1 →
    num s' !! i = Some x ∧ parent s' !! i = parent s !! i.

(** An edge of [edges] with what its classification says: both ends are
    numbered vertices of [0, V) joined in the graph; a tree edge leads
    from the parent to a child with a larger number, a back edge leads
    to a vertex with a smaller number that is not the parent. *)
Definition edge_recorded (s : Tester) (e : Edge) : Prop :=
  0 ≤ v1 e < V s ∧ 0 ≤ v2 e < V s ∧ v2 e ∈ adj s (v1 e) ∧
  ∃ x y, num s !! Z.to_nat (v1 e) = Some x ∧ num s !! Z.to_nat (v2 e) = Some y ∧
    1 ≤ x ∧ 1 ≤ y ∧
    ((sign e = 1 ∧ x < y ∧ parent s !! Z.to_nat (v2 e) = Some (v1 e)) ∨
     (sign e = -1 ∧ y < x ∧ parent s !! Z.to_nat (v1 e) ≠ Some (v2 e))).

(** The tree edge to [v] between its recording and the call that
    numbers [v]. *)
Definition edge_pending (s : Tester) (v : Z) (e : Edge) : Prop :=
  sign e = 1 ∧ v2 e = v ∧ 0 ≤ v1 e < V s ∧ v ∈ adj s (v1 e) ∧
  ∃ x, num s !! Z.to_nat (v1 e) = Some x ∧ 1 ≤ x ∧
    parent s !! Z.to_nat v = Some (v1 e).

(** The state of the arrays during a first traversal: the numbers in
    use are 1, ..., [counter], each once; a vertex numbered 2 or more has
    a parent, which is a neighbour with a smaller number; the vertex
    numbered 1 has none. *)
Record dfs_inv (s : Tester) : Prop := {
  di_numbers : numbers (num s) ≡ₚ seqZ 1 (counter s);
  di_parent : ∀ i x, num s !! i = Some x → 2 ≤ x →
    ∃ p y, parent s !! i = Some p ∧ 0 ≤ p < V s ∧
      num s !! Z.to_nat p = Some y ∧ 1 ≤ y < x ∧ Z.of_nat i ∈ adj s p;
  di_root : ∀ i, num s !! i = Some 1 → parent s !! i = Some (-1)
}.

(** What [_compute_numbers(v)] may assume of [parent[v]] when it is
    called on a vertex without a number. *)
Definition pre_call (s : Tester) (v : Z) : Prop :=
  (counter s = 0 ∧ parent s !! Z.to_nat v = Some (-1)) ∨
  (∃ p y, parent s !! Z.to_nat v = Some p ∧ 0 ≤ p < V s ∧
     num s !! Z.to_nat p = Some y ∧ 1 ≤ y ∧ v ∈ adj s p).

(** Every vertex that got its number between [s] and [s'] has all its
    neighbours numbered in [s']. *)
Definition closure_post (s s' : Tester) : Prop :=
  ∀ i x, num s !! i = Some (-1) → num s' !! i = Some x → x ≠ -1 →
    ∀ w, w ∈ adj s (Z.of_nat i) → ∃ y, num s' !! Z.to_nat w = Some y ∧ y ≠ -1.

(** A new tester with a graph: what [__init__] and any [add_edge] calls
    leave. *)
Definition fresh (s : Tester) : Prop := s = set_graph (init (V s)) (graph s).

(** Both ends of the edge are vertices of [0, V). *)
Definition edge_valid (s : Tester) (e : Edge) : Prop :=
  0 ≤ v1 e < V s ∧ 0 ≤ v2 e < V s.

(** The vertex [v] has a DFS number. *)
Definition visited (s : Tester) (v : Z) : Prop :=
  ∃ x, num s !! Z.to_nat v = Some x ∧ x ≠ -1.

(** * Properties *)

(** ** Python lists *)

Lemma py_index_Some len i n : py_index len i = Some n → (n < len)%nat.
Proof.
  unfold py_index. intros H.
  destruct ((0 <=? i) && (i <? Z.of_nat len)) eqn:E1.
  - injection H as <-. lia.
  - destruct ((- Z.of_nat len <=? i) && (i <? 0)) eqn:E2; [|done].
    injection H as <-. lia.
Qed.

Lemma py_index_valid len i :
  0 ≤ i < Z.of_nat len → py_index len i = Some (Z.to_nat i).
Proof.
  intros H. unfold py_index.
  replace ((0 <=? i) && (i <? Z.of_nat len)) with true; [done|].
  symmetry. apply andb_true_intro. split; lia.
Qed.

Lemma getitem_valid (l : list Z) i :
  0 ≤ i < Z.of_nat (length l) →
  ∃ x, l !! Z.to_nat i = Some x ∧ getitem l i = Ok x.
Proof.
  intros H. unfold getitem. rewrite py_index_valid by done.
  destruct (lookup_lt_is_Some_2 l (Z.to_nat i)) as [x Hx]; [lia|].
  exists x. by rewrite Hx.
Qed.

Lemma setitem_valid (l : list Z) i x :
  0 ≤ i < Z.of_nat (length l) → setitem l i x = Ok (<[Z.to_nat i := x]> l).
Proof. intros H. unfold setitem. by rewrite py_index_valid. Qed.


Lemma setitem_Ok (l : list Z) i x l' :
  setitem l i x = Ok l' →
  ∃ n, py_index (length l) i = Some n ∧ (n < length l)%nat ∧ l' = <[n := x]> l.
Proof.
  unfold setitem. destruct (py_index (length l) i) as [n|] eqn:E; [|done].
  intros [= <-]. exists n. eauto using py_index_Some.
Qed.

Lemma setitem_length (l : list Z) i x l' : setitem l i x = Ok l' → length l' = length l.
Proof. intros (n & _ & _ & ->)%setitem_Ok. apply length_insert. Qed.

(** ** Fuel

    A run that ends, with a value or an exception, ends the same way with
    any larger amount of fuel. *)

Lemma numbers_loop_mono (rec1 rec2 : Z → Tester → result (bool * Tester)) v :
  (∀ w s r, rec1 w s = r → r ≠ Diverge → rec2 w s = r) →
  ∀ ws s r, numbers_loop rec1 v ws s = r → r ≠ Diverge → numbers_loop rec2 v ws s = r.
Proof.
  intros Hrec ws. induction ws as [|w ws IH]; intros s r H Hr; simpl in *; [done|].
  destruct (getitem (num s) w) as [nw| |]; simpl in *; try done.
  destruct (nw =? -1).
  - destruct (setitem (parent s) w v) as [p| |]; simpl in *; try done.
    match type of H with context [rec1 ?a ?b] =>
      destruct (rec1 a b) as [[ok s1]| |] eqn:E1; simpl in *;
      [rewrite (Hrec _ _ _ E1) by done|rewrite (Hrec _ _ _ E1) by done|congruence] end;
    simpl; [|done].
    destruct ok; [by apply IH|done].
  - destruct (getitem (num s) v) as [nv| |]; simpl in *; try done.
    destruct (nw <? nv); [|by apply IH].
    destruct (getitem (parent s) v) as [pv| |]; simpl in *; try done.
    destruct (negb (w =? pv)); by apply IH.
Qed.

Lemma _compute_numbers_mono n m v s r :
  (n ≤ m)%nat → _compute_numbers n v s = r → r ≠ Diverge → _compute_numbers m v s = r.
Proof.
  revert m v s r. induction n as [|n IH]; intros m v s r Hle H Hr; simpl in H; [congruence|].
  destruct m as [|m]; [lia|]. simpl.
  destruct (setitem _ _ _) as [l| |]; simpl in *; try done.
  eapply numbers_loop_mono; [|exact H|exact Hr].
  intros w s' r' H' Hr'. apply IH; [lia|done..].
Qed.

Lemma nesting_loop_mono n m s v w d r :
  (n ≤ m)%nat → nesting_loop n s v w d = r → r ≠ Diverge → nesting_loop m s v w d = r.
Proof.
  revert m v d r. induction n as [|n IH]; intros m v d r Hle H Hr; simpl in H; [congruence|].
  destruct m as [|m]; [lia|]. simpl.
  destruct (getitem (num s) v) as [nv| |]; simpl in *; try done.
  destruct (getitem (num s) w) as [nw| |]; simpl in *; try done.
  destruct (nv >? nw); [|done].
  destruct (getitem (parent s) v) as [pv| |]; simpl in *; try done.
  apply IH; [lia|done..].
Qed.

Lemma edge_step_mono n m s f e r :
  (n ≤ m)%nat → edge_step n s f e = r → r ≠ Diverge → edge_step m s f e = r.
Proof.
  intros Hle H Hr. unfold edge_step, back_edge_step, _compute_nesting_depth in *.
  destruct (sign e =? 1); [done|].
  destruct (nesting_loop n s (v1 e) (v2 e) 0) as [h| |] eqn:E; simpl in H;
    [| |congruence]; rewrite (nesting_loop_mono _ _ _ _ _ _ _ Hle E) by done; done.
Qed.

Lemma test_loop_mono n m s es f r :
  (n ≤ m)%nat → test_loop n s es f = r → r ≠ Diverge → test_loop m s es f = r.
Proof.
  intros Hle. revert f r. induction es as [|e es IH]; intros f r H Hr; simpl in *; [done|].
  destruct (edge_step n s f e) as [st| |] eqn:E; simpl in H;
    [| |congruence]; rewrite (edge_step_mono _ _ _ _ _ _ Hle E) by done; simpl; [|done].
  destruct st; [by apply IH|done].
Qed.

Lemma is_planar_mono n m s r :
  (n ≤ m)%nat → is_planar n s = r → r ≠ Diverge → is_planar m s = r.
Proof.
  intros Hle H Hr. unfold is_planar in *.
  destruct (_compute_numbers n 0 s) as [[ok s1]| |] eqn:E; simpl in H;
    [| |congruence]; rewrite (_compute_numbers_mono _ _ _ _ _ Hle E) by done; simpl; [|done].
  destruct (negb ok); [done|].
  destruct (_compute_lowpoints s1) as [s2| |]; simpl in *; try done.
  destruct (_sort_edges s2) as [s3| |]; simpl in *; try done.
  unfold _test_planarity in *.
  destruct (test_loop n s3 (sorted_edges s3) _) as [b| |] eqn:E3; simpl in H;
    [| |congruence]; rewrite (test_loop_mono _ _ _ _ _ _ Hle E3) by done; done.
Qed.

Lemma verdict_is_planar_mono n k s b :
  verdict (is_planar n s) = Ok b → verdict (is_planar (n + k) s) = Ok b.
Proof.
  intros H. destruct (is_planar n s) as [[b' s']| |] eqn:E; simpl in H; try done.
  rewrite (is_planar_mono n (n + k) s _ ltac:(lia) E) by done. done.
Qed.

(** ** Examples of the source file *)

(** The first example of the source, K4, is reported planar. *)
Lemma K4_demo_planar (k : nat) :
  build 4 (complete_pairs 0 4) = Ok K4_demo ∧
  verdict (is_planar (5 + k) K4_demo) = Ok true.
Proof.
  split; [vm_compute; reflexivity|].
  apply verdict_is_planar_mono. vm_compute. reflexivity.
Qed.

(** C4. For K5, built as the second example of the source builds it (five
    vertices, the ten edges added in the order of the nested loops),
    [is_planar] returns [False], whatever fuel beyond the six units the
    run needs is supplied. *)
Theorem C4_K5_not_planar (k : nat) :
  build 5 (complete_pairs 0 5) = Ok K5_demo ∧
  verdict (is_planar (6 + k) K5_demo) = Ok false.
Proof.
  split; [vm_compute; reflexivity|].
  apply verdict_is_planar_mono. vm_compute. reflexivity.
Qed.

(** ** The graph store *)

(** C2, as the code has it: [add_edge] checks nothing. On a tester
    with three vertices, [add_edge(3, 0)] names a vertex outside [0, 3)
    and [add_edge(1, 1)] is a loop; neither call raises, and both change
    the adjacency lists. *)
Lemma C2_add_edge_never_rejects :
  let s := init 3 in
  V s = 3 ∧
  (∃ s', add_edge s 3 0 = Ok s' ∧ adj s' 3 = [0] ∧ adj s' 0 = [3] ∧ graph s' ≠ graph s) ∧
  (∃ s', add_edge s 1 1 = Ok s' ∧ adj s' 1 = [1; 1] ∧ graph s' ≠ graph s).
Proof.
  split; [reflexivity|]. split; eexists; (split; [reflexivity|]).
  - split; [vm_compute; reflexivity|]. split; [vm_compute; reflexivity|].
    cbv zeta.
    intros H. apply (f_equal (fun g => g !! 0)) in H. vm_compute in H. discriminate.
  - split; [vm_compute; reflexivity|].
    intros H. apply (f_equal (fun g => g !! 1)) in H. vm_compute in H. discriminate.
Qed.

(** C2, amended: [add_edge] succeeds for all integers [u] and [v]; it
    appends [v] to the list of [u] and then [u] to the list of [v] (so a
    loop [u = v] appends [u] twice to one list), leaves every other
    adjacency list as it was, and touches nothing but the adjacency. *)
Theorem C2_add_edge_appends (s : Tester) (u v : Z) :
  ∃ s', add_edge s u v = Ok s' ∧
    adj s' u = (if decide (u = v) then adj s u ++ [v; u] else adj s u ++ [v]) ∧
    adj s' v = (if decide (u = v) then adj s v ++ [v; u] else adj s v ++ [u]) ∧
    (∀ x, x ≠ u → x ≠ v → adj s' x = adj s x) ∧
    s' = set_graph s (graph s').
Proof.
  eexists; split; [reflexivity|].
  unfold adj, set_graph; cbn [graph]. repeat split.
  - case_decide as Huv.
    + subst v. rewrite !lookup_insert_eq. simpl. by rewrite <- app_assoc.
    + rewrite lookup_insert_ne by done. by rewrite lookup_insert_eq.
  - rewrite lookup_insert_eq. simpl. case_decide as Huv.
    + subst v. rewrite lookup_insert_eq. simpl. by rewrite <- app_assoc.
    + by rewrite lookup_insert_ne by done.
  - intros x Hu Hv. by rewrite !lookup_insert_ne by done.
Qed.

(** ** DFS numbering: what every run preserves *)

Lemma numbering_frame_refl s : numbering_frame s s.
Proof. split; try done. exists []. by rewrite app_nil_r. Qed.

Lemma numbering_frame_trans s1 s2 s3 :
  numbering_frame s1 s2 → numbering_frame s2 s3 → numbering_frame s1 s3.
Proof.
  intros [] []. split; try congruence; try lia.
  destruct nf_edges0 as [n1 E1], nf_edges1 as [n2 E2].
  exists (n1 ++ n2). by rewrite E2, E1, app_assoc.
Qed.

Lemma numbers_loop_frame (rec : Z → Tester → result (bool * Tester)) v :
  (∀ w s b s', rec w s = Ok (b, s') → b = true ∧ numbering_frame s s') →
  ∀ ws s b s', numbers_loop rec v ws s = Ok (b, s') → b = true ∧ numbering_frame s s'.
Proof.
  intros Hrec ws. induction ws as [|w ws IH]; intros s b s' H; simpl in H.
  { injection H as <- <-. split; [done|apply numbering_frame_refl]. }
  destruct (getitem (num s) w) as [nw| |]; simpl in H; try done.
  destruct (nw =? -1).
  - destruct (setitem (parent s) w v) as [p| |] eqn:Ep; simpl in H; try done.
    match type of H with context [rec ?a ?b] =>
      destruct (rec a b) as [[ok s1]| |] eqn:E1; simpl in H; try done end.
    apply Hrec in E1 as [-> F1].
    apply IH in H as [-> F2]. split; [done|].
    eapply numbering_frame_trans; [|exact F2].
    eapply numbering_frame_trans; [|exact F1].
    split; simpl; try done.
    + eapply setitem_length, Ep.
    + eauto.
  - destruct (getitem (num s) v) as [nv| |]; simpl in H; try done.
    destruct (nw <? nv); [|by apply IH].
    destruct (getitem (parent s) v) as [pv| |]; simpl in H; try done.
    destruct (negb (w =? pv)); [|by apply IH].
    apply IH in H as [-> F2]. split; [done|].
    eapply numbering_frame_trans; [|exact F2].
    split; simpl; try done. eauto.
Qed.

Lemma _compute_numbers_frame n v s b s' :
  _compute_numbers n v s = Ok (b, s') → b = true ∧ numbering_frame s s'.
Proof.
  revert v s b s'. induction n as [|n IH]; intros v s b s' H; simpl in H; [done|].
  destruct (setitem _ _ _) as [l| |] eqn:El; simpl in H; try done.
  apply (numbers_loop_frame _ _ IH) in H as [-> F]. split; [done|].
  eapply numbering_frame_trans; [|exact F].
  split; simpl; try done; try lia.
  - eapply setitem_length, El.
  - exists []. by rewrite app_nil_r.
Qed.

(** ** DFS numbering: termination on well-formed testers *)

Lemma wf_frame s s' : wf s → numbering_frame s s' → wf s'.
Proof.
  intros [] []. split; try congruence; try lia.
  - intros v w. unfold adj. rewrite nf_graph0, nf_V0. apply wf_adj0.
  - rewrite nf_lowpt0, nf_lowpt3. apply wf_low0.
Qed.

Lemma unvisited_insert_le (l : list Z) i x :
  x ≠ -1 → (unvisited (<[i := x]> l) ≤ unvisited l)%nat.
Proof.
  intros Hx. revert i. induction l as [|y l IH]; intros [|i]; simpl; try lia.
  - destruct (x =? -1) eqn:E; [lia|]. destruct (y =? -1); lia.
  - specialize (IH i). lia.
Qed.

Lemma unvisited_insert_visit (l : list Z) i x :
  l !! i = Some (-1) → x ≠ -1 → S (unvisited (<[i := x]> l)) = unvisited l.
Proof.
  intros Hl Hx. revert i Hl. induction l as [|y l IH]; intros [|i] Hl; simpl in *; try done.
  - injection Hl as ->. simpl. destruct (x =? -1) eqn:E; [lia|]. done.
  - rewrite <- (IH i Hl). lia.
Qed.

Lemma numbers_loop_total n v :
  (∀ s w, wf s → 0 ≤ w < V s →
     (unvisited (<[Z.to_nat w := (counter s + 1)%Z]> (num s)) < n)%nat →
     ∃ s', _compute_numbers n w s = Ok (true, s') ∧
       (unvisited (num s') ≤ unvisited (<[Z.to_nat w := (counter s + 1)%Z]> (num s)))%nat) →
  ∀ ws s, wf s → 0 ≤ v < V s → (∀ w, w ∈ ws → 0 ≤ w < V s) →
    (unvisited (num s) ≤ n)%nat →
    ∃ s', numbers_loop (_compute_numbers n) v ws s = Ok (true, s') ∧
      (unvisited (num s') ≤ unvisited (num s))%nat.
Proof.
  intros Hrec ws. induction ws as [|w ws IH]; intros s Hwf Hv Hws Hn; simpl.
  { eauto. }
  assert (0 ≤ w < V s) as Hw by (apply Hws; left).
  assert (∀ w', w' ∈ ws → 0 ≤ w' < V s) as Hws' by (intros; apply Hws; by right).
  pose proof Hwf as [].
  destruct (getitem_valid (num s) w) as (nw & Hlw & ->); [lia|]. simpl.
  destruct (nw =? -1) eqn:Enw.
  - apply Z.eqb_eq in Enw. subst nw.
    rewrite setitem_valid by lia. simpl.
    set (s1 := set_edges _ _).
    assert (wf s1) as Hwf1.
    { split; simpl; try done. rewrite length_insert. done. }
    destruct (Hrec s1 w Hwf1) as (s2 & E2 & Hle2); [done| |].
    { simpl. pose proof (unvisited_insert_visit (num s) (Z.to_nat w) (counter s + 1) Hlw).
      lia. }
    rewrite E2. simpl.
    apply _compute_numbers_frame in E2 as [_ F2].
    pose proof (unvisited_insert_visit (num s) (Z.to_nat w) (counter s + 1) Hlw) as Hdec.
    simpl in Hle2.
    destruct (IH s2) as (s3 & E3 & Hle3).
    + eapply wf_frame; eauto.
    + rewrite (nf_V _ _ F2). done.
    + rewrite (nf_V _ _ F2). done.
    + lia.
    + exists s3. split; [done|]. lia.
  - destruct (getitem_valid (num s) v) as (nv & _ & ->); [lia|]. simpl.
    destruct (nw <? nv); [|by apply IH].
    destruct (getitem_valid (parent s) v) as (pv & _ & ->); [lia|]. simpl.
    destruct (negb (w =? pv)); [|by apply IH].
    by apply (IH (set_edges s _)).
Qed.

Lemma _compute_numbers_total n s v :
  wf s → 0 ≤ v < V s →
  (unvisited (<[Z.to_nat v := (counter s + 1)%Z]> (num s)) < n)%nat →
  ∃ s', _compute_numbers n v s = Ok (true, s') ∧
    (unvisited (num s') ≤ unvisited (<[Z.to_nat v := (counter s + 1)%Z]> (num s)))%nat.
Proof.
  revert s v. induction n as [|n IH]; intros s v Hwf Hv Hn; [lia|].
  pose proof Hwf as []. simpl.
  rewrite setitem_valid by lia. simpl.
  set (s0 := set_num _ _).
  destruct (numbers_loop_total n v IH (adj s0 v) s0) as (s' & E & Hle).
  - split; simpl; try done; [|lia]. by rewrite length_insert.
  - done.
  - intros w Hw. apply (wf_adj0 v w Hw).
  - simpl. lia.
  - exists s'. split; done.
Qed.

Lemma unvisited_length (l : list Z) : (unvisited l ≤ length l)%nat.
Proof. induction l as [|x l IH]; simpl; [lia|]. destruct (x =? -1); lia. Qed.

(** For a well-formed tester with at least one vertex, [V + 1] units of
    fuel are enough for the numbering from vertex 0. *)
Lemma _compute_numbers_root_total s k :
  wf s → 0 < V s →
  ∃ s', _compute_numbers (S (Z.to_nat (V s)) + k) 0 s = Ok (true, s') ∧
    wf s' ∧ numbering_frame s s'.
Proof.
  intros Hwf HV. pose proof Hwf as [].
  destruct (_compute_numbers_total (S (Z.to_nat (V s)) + k) s 0 Hwf) as (s' & E & _).
  - lia.
  - pose proof (unvisited_length (<[Z.to_nat 0 := (counter s + 1)%Z]> (num s))) as H.
    rewrite length_insert in H. lia.
  - exists s'. pose proof (_compute_numbers_frame _ _ _ _ _ E) as [_ F].
    eauto using wf_frame.
Qed.

(** ** Well-formed testers from the constructor and [add_edge] *)

Lemma wf_init (vertices : Z) : 0 ≤ vertices → wf (init vertices).
Proof.
  intros H. split; simpl; try (rewrite length_replicate; lia); try done.
  - intros v w. unfold adj. simpl. rewrite lookup_empty. simpl. by intros ?%elem_of_nil.
  - intros i x y H1 H2. rewrite H1 in H2. injection H2 as ->. lia.
Qed.

Lemma wf_add_edge s u v s' :
  wf s → 0 ≤ u < V s → 0 ≤ v < V s → add_edge s u v = Ok s' → wf s'.
Proof.
  intros [] Hu Hv [= <-]. split; simpl; try done.
  intros x w. unfold adj, set_graph; cbn [graph V].
  destruct (decide (v = x)) as [->|Hvx].
  - rewrite lookup_insert_eq. simpl.
    destruct (decide (u = x)) as [->|Hux].
    + rewrite lookup_insert_eq. simpl.
      rewrite !elem_of_app, !list_elem_of_singleton.
      intros [[Hw| ->]| ->]; [by eapply wf_adj0|done..].
    + rewrite lookup_insert_ne by done.
      rewrite !elem_of_app, !list_elem_of_singleton.
      intros [Hw| ->]; [by eapply wf_adj0|done].
  - rewrite lookup_insert_ne by done.
    destruct (decide (u = x)) as [->|Hux].
    + rewrite lookup_insert_eq. simpl.
      rewrite !elem_of_app, !list_elem_of_singleton.
      intros [Hw| ->]; [by eapply wf_adj0|done].
    + rewrite lookup_insert_ne by done. apply wf_adj0.
Qed.

Lemma add_edge_V s u v s' : add_edge s u v = Ok s' → V s' = V s.
Proof. by intros [= <-]. Qed.

Lemma wf_add_edges es : ∀ s s',
  wf s → Forall (λ e, (0 ≤ e.1 < V s) ∧ (0 ≤ e.2 < V s)) es →
  add_edges s es = Ok s' → wf s' ∧ V s' = V s.
Proof.
  induction es as [|[u v] es IH]; intros s s' Hwf Hes H.
  { simpl in H. by injection H as <-. }
  apply Forall_cons in Hes as [[Hu Hv] Hes]. simpl in Hu, Hv.
  cbn [add_edges] in H.
  destruct (add_edge s u v) as [s1| |] eqn:E1; simpl in H; try done.
  pose proof (add_edge_V _ _ _ _ E1) as HV.
  destruct (IH s1 s') as [Hwf' HV'].
  - exact (wf_add_edge s u v s1 Hwf Hu Hv E1).
  - by rewrite HV.
  - done.
  - split; [done|congruence].
Qed.

(** A tester built by [add_edge] calls that name vertices of [0, V) only
    is well formed. *)
Lemma wf_build vertices es s :
  0 ≤ vertices →
  Forall (λ e, (0 ≤ e.1 < vertices) ∧ (0 ≤ e.2 < vertices)) es →
  build vertices es = Ok s → wf s ∧ V s = vertices.
Proof.
  intros HV Hes H. by apply (wf_add_edges es (init vertices) s (wf_init _ HV)).
Qed.

Lemma wf_triangle : wf triangle ∧ V triangle = 3.
Proof.
  apply (wf_build 3 [(0, 1); (1, 2); (0, 2)]); [lia| |vm_compute; reflexivity].
  repeat (apply Forall_cons; split; [simpl; lia|]). by apply Forall_nil.
Qed.

Lemma wf_K5_demo : wf K5_demo ∧ V K5_demo = 5.
Proof.
  apply (wf_build 5 (complete_pairs 0 5)); [lia| |vm_compute; reflexivity].
  repeat (apply Forall_cons; split; [simpl; lia|]). by apply Forall_nil.
Qed.

(** ** The numbering never reports failure *)

(** C10. No call of [_compute_numbers], on any tester and at any depth
    of the recursion, returns [False]; on a well-formed tester with at
    least one vertex the call made by [is_planar] does return, with
    [True], given [V + 1] units of fuel or more. So [is_planar] never leaves
    through [return False] after the numbering: its verdict is the one
    of [_test_planarity] on the tester as numbered, with lowpoints and
    sorted edges. *)
Theorem C10_numbering_always_true (s : Tester) (k : nat) :
  wf s → 0 < V s →
  let fuel := (S (Z.to_nat (V s)) + k)%nat in
  (∀ n v t b t', _compute_numbers n v t = Ok (b, t') → b = true) ∧
  ∃ s1, _compute_numbers fuel 0 s = Ok (true, s1) ∧
    is_planar fuel s =
      (s2 ← _compute_lowpoints s1; s3 ← _sort_edges s2;
       b ← _test_planarity fuel s3; Ok (b, s3)).
Proof.
  intros Hwf HV fuel. split.
  - intros n v t b t' H. by apply _compute_numbers_frame in H as [-> _].
  - destruct (_compute_numbers_root_total s k Hwf HV) as (s1 & E & _ & _).
    exists s1. subst fuel. split; [done|]. unfold is_planar. rewrite E. done.
Qed.

Lemma C10_numbering_always_true_witness :
  ∃ s1, _compute_numbers 4 0 triangle = Ok (true, s1) ∧
    is_planar 4 triangle =
      (s2 ← _compute_lowpoints s1; s3 ← _sort_edges s2;
       b ← _test_planarity 4 s3; Ok (b, s3)).
Proof.
  destruct wf_triangle as [Hwf HV].
  refine (proj2 (C10_numbering_always_true triangle 0 Hwf _)).
  rewrite HV. lia.
Defined.

(** ** Lowpoints *)

Lemma lowpoint_frame_refl s : lowpoint_frame s s.
Proof. by split. Qed.

Lemma lowpoint_frame_trans s1 s2 s3 :
  lowpoint_frame s1 s2 → lowpoint_frame s2 s3 → lowpoint_frame s1 s3.
Proof. intros [] []. split; congruence. Qed.

Lemma wf_set_lowpt s i x :
  wf s → (∀ y, lowpt2 s !! i = Some y → x ≤ y) → wf (set_lowpt s (<[i := x]> (lowpt s))).
Proof.
  intros [] Hx. split; simpl; try done.
  - by rewrite length_insert.
  - intros j a b Ha Hb. destruct (decide (i = j)) as [->|Hij].
    + apply lookup_lt_Some in Ha as Hlt. rewrite length_insert in Hlt.
      rewrite list_lookup_insert_eq in Ha by done. injection Ha as <-. by apply Hx.
    + rewrite list_lookup_insert_ne in Ha by done. by eapply wf_low0.
Qed.

Lemma wf_set_lowpt2 s i y :
  wf s → (∀ x, lowpt s !! i = Some x → x ≤ y) → wf (set_lowpt2 s (<[i := y]> (lowpt2 s))).
Proof.
  intros [] Hy. split; simpl; try done.
  - by rewrite length_insert.
  - intros j a b Ha Hb. destruct (decide (i = j)) as [->|Hij].
    + apply lookup_lt_Some in Hb as Hlt. rewrite length_insert in Hlt.
      rewrite list_lookup_insert_eq in Hb by done. injection Hb as <-. by apply Hy.
    + rewrite list_lookup_insert_ne in Hb by done. by eapply wf_low0.
Qed.

Lemma lowpt_descent_refl i s : lowpt_descent i s s.
Proof. split; [apply lowpoint_frame_refl|done|]. intros x Hx. exists x. split; [done|lia]. Qed.

Lemma lowpt_descent_trans i s1 s2 s3 :
  lowpt_descent i s1 s2 → lowpt_descent i s2 s3 → lowpt_descent i s1 s3.
Proof.
  intros [F1 O1 C1] [F2 O2 C2]. split.
  - by eapply lowpoint_frame_trans.
  - intros j Hj. by rewrite O2, O1.
  - intros x Hx. destruct (C1 x Hx) as (x1 & Hx1 & Hle1).
    destruct (C2 x1 Hx1) as (x2 & Hx2 & Hle2). exists x2. split; [done|lia].
Qed.

Ltac read_valid l i x H :=
  let E := fresh "E" in
  destruct (getitem_valid l i) as (x & H & E); [lia|]; rewrite E; clear E; simpl.

Lemma lowpoints_loop_spec v ws : ∀ s,
  wf s → 0 ≤ v < V s → (∀ w, w ∈ ws → 0 ≤ w < V s) →
  ∃ s', lowpoints_loop v ws s = Ok s' ∧ wf s' ∧ lowpt_descent (Z.to_nat v) s s'.
Proof.
  induction ws as [|w ws IH]; intros s Hwf Hv Hws; simpl.
  { exists s. eauto using lowpt_descent_refl. }
  assert (0 ≤ w < V s) as Hw by (apply Hws; left).
  assert (∀ w', w' ∈ ws → 0 ≤ w' < V s) as Hws' by (intros; apply Hws; by right).
  pose proof Hwf as [].
  read_valid (num s) w nw Hnw. read_valid (num s) v nv Hnv.
  assert (∀ s1, wf s1 → lowpt_descent (Z.to_nat v) s s1 →
    ∃ s', lowpoints_loop v ws s1 = Ok s' ∧ wf s' ∧ lowpt_descent (Z.to_nat v) s s') as Hnext.
  { intros s1 Hwf1 D1. pose proof (lf_V _ _ (ld_frame _ _ _ D1)) as HV.
    destruct (IH s1) as (s' & E & Hwf' & D'); [done|by rewrite HV..|].
    exists s'. eauto using lowpt_descent_trans. }
  assert (∀ x, (∀ lv, lowpt s !! Z.to_nat v = Some lv → x ≤ lv) →
    lowpt_descent (Z.to_nat v) s (set_lowpt s (<[Z.to_nat v := x]> (lowpt s)))) as Hset.
  { intros x Hx. split; [by split| |].
    - intros j Hj. simpl. by rewrite list_lookup_insert_ne.
    - intros lv Hlv. exists x. simpl. split; [|by apply Hx].
      apply list_lookup_insert_eq. by eapply lookup_lt_Some. }
  assert (∀ s1 y, lowpt_descent (Z.to_nat v) s s1 →
    lowpt_descent (Z.to_nat v) s (set_lowpt2 s1 y)) as Hset2.
  { intros s1 y [[] O C]. split; [by split|done..]. }
  destruct (nw <? nv) eqn:Elt.
  - read_valid (parent s) v pv Hpv.
    destruct (negb (nw =? pv)); simpl.
    + read_valid (lowpt s) v lv Hlv. rewrite setitem_valid by lia. simpl.
      apply Hnext.
      * apply wf_set_lowpt; [done|]. intros y Hy. pose proof (wf_low0 _ _ _ Hlv Hy). lia.
      * apply Hset. intros lv' Hlv'. rewrite Hlv in Hlv'. injection Hlv' as <-. lia.
    + replace (nw >? nv) with false by lia. by apply Hnext, lowpt_descent_refl.
  - simpl. destruct (nw >? nv) eqn:Egt; [|by apply Hnext, lowpt_descent_refl].
    read_valid (lowpt s) v lv Hlv. read_valid (lowpt s) w lw Hlw.
    rewrite setitem_valid by lia. simpl.
    read_valid (lowpt2 s) v lv2 Hlv2. read_valid (lowpt2 s) w lw2 Hlw2.
    rewrite setitem_valid by lia. simpl.
    pose proof (wf_low0 _ _ _ Hlv Hlv2). pose proof (wf_low0 _ _ _ Hlw Hlw2).
    apply Hnext.
    * apply (wf_set_lowpt2 (set_lowpt s _)).
      -- apply wf_set_lowpt; [done|]. intros y Hy. rewrite Hlv2 in Hy. injection Hy as <-. lia.
      -- simpl. intros x Hx. rewrite list_lookup_insert_eq in Hx by lia.
         injection Hx as <-. lia.
    * apply Hset2, Hset. intros lv' Hlv'. rewrite Hlv in Hlv'. injection Hlv' as <-. lia.
Qed.

Lemma wf_set_lowpt_both s i x y :
  wf s → x ≤ y →
  wf (set_lowpt2 (set_lowpt s (<[i := x]> (lowpt s))) (<[i := y]> (lowpt2 s))).
Proof.
  intros [] Hxy. split; simpl; try done; try by rewrite length_insert.
  intros j a b Ha Hb. destruct (decide (i = j)) as [->|Hij].
  - apply lookup_lt_Some in Ha as Hlt1. apply lookup_lt_Some in Hb as Hlt2.
    rewrite length_insert in Hlt1, Hlt2.
    rewrite list_lookup_insert_eq in Ha, Hb by done. congruence.
  - rewrite list_lookup_insert_ne in Ha, Hb by done. by eapply wf_low0.
Qed.

Lemma lowpoints_vertex_spec v s :
  wf s → 0 ≤ v < V s →
  ∃ s', lowpoints_vertex v s = Ok s' ∧ wf s' ∧ lowpoint_frame s s' ∧
    (∀ j, j ≠ Z.to_nat v → lowpt s' !! j = lowpt s !! j) ∧
    (∀ nv, num s !! Z.to_nat v = Some nv → nv ≠ -1 →
       ∃ l, lowpt s' !! Z.to_nat v = Some l ∧ l ≤ nv).
Proof.
  intros Hwf Hv. pose proof Hwf as []. unfold lowpoints_vertex.
  read_valid (num s) v nv Hnv.
  destruct (nv =? -1) eqn:Evis; simpl.
  { exists s. split; [done|]. split; [done|]. split; [apply lowpoint_frame_refl|].
    split; [done|]. intros nv' Hnv'. rewrite Hnv in Hnv'. injection Hnv' as <-. lia. }
  read_valid (num s) v nv' Hnv'. rewrite Hnv in Hnv'. injection Hnv' as <-.
  rewrite !setitem_valid by lia. simpl.
  set (s1 := set_lowpt2 _ _).
  assert (wf s1) as Hwf1 by (apply wf_set_lowpt_both; [done|lia]).
  destruct (lowpoints_loop_spec v (adj s1 v) s1 Hwf1) as (s' & E & Hwf' & [F O C]).
  { done. }
  { intros w Hw. apply (wf_adj0 v w Hw). }
  exists s'. split; [done|]. split; [done|]. split.
  { destruct F. split; simpl in *; congruence. }
  split.
  - intros j Hj. rewrite (O j Hj). simpl. by rewrite list_lookup_insert_ne.
  - intros nv' Hnv'. rewrite Hnv in Hnv'. injection Hnv' as <-. intros _.
    apply C. simpl. apply list_lookup_insert_eq. lia.
Qed.

Lemma lowpoints_range_spec n : ∀ a s,
  wf s → Z.of_nat (a + n) ≤ V s →
  ∃ s', lowpoints_range (map Z.of_nat (seq a n)) s = Ok s' ∧ wf s' ∧ lowpoint_frame s s' ∧
    (∀ j, (j < a)%nat → lowpt s' !! j = lowpt s !! j) ∧
    (∀ j nv, (a ≤ j < a + n)%nat → num s !! j = Some nv → nv ≠ -1 →
       ∃ l, lowpt s' !! j = Some l ∧ l ≤ nv).
Proof.
  induction n as [|n IH]; intros a s Hwf Ha; simpl.
  { exists s. split; [done|]. split; [done|]. split; [apply lowpoint_frame_refl|].
    split; [done|]. intros; lia. }
  destruct (lowpoints_vertex_spec (Z.of_nat a) s Hwf) as (s1 & E1 & Hwf1 & F1 & O1 & C1); [lia|].
  rewrite E1. simpl. rewrite Nat2Z.id in O1, C1.
  destruct (IH (S a) s1 Hwf1) as (s' & E & Hwf' & F & O & C).
  { rewrite (lf_V _ _ F1). lia. }
  exists s'. split; [done|]. split; [done|]. split; [by eapply lowpoint_frame_trans|]. split.
  - intros j Hj. rewrite O by lia. apply O1. lia.
  - intros j nv Hj Hnv Hvis. destruct (decide (j = a)) as [->|Hja].
    + rewrite O by lia. by apply C1.
    + apply C; [lia| |done]. by rewrite (lf_num _ _ F1).
Qed.

Lemma _compute_lowpoints_spec s :
  wf s →
  ∃ s', _compute_lowpoints s = Ok s' ∧ wf s' ∧ lowpoint_frame s s' ∧
    (∀ j nv, num s !! j = Some nv → nv ≠ -1 → ∃ l, lowpt s' !! j = Some l ∧ l ≤ nv).
Proof.
  intros Hwf. pose proof Hwf as []. unfold _compute_lowpoints, range.
  destruct (lowpoints_range_spec (Z.to_nat (V s)) 0 s Hwf) as (s' & E & Hwf' & F & _ & C); [lia|].
  exists s'. split; [done|]. split; [done|]. split; [done|].
  intros j nv Hnv Hvis. apply C; [|done..].
  apply lookup_lt_Some in Hnv. lia.
Qed.

(** C9. On a well-formed tester with at least one vertex the numbering
    and the lowpoint phase of [is_planar] both complete, and afterwards
    every vertex [v] of [0, V) that has a DFS number satisfies
    [lowpt[v] <= num[v]] and [lowpt[v] <= lowpt2[v]]. *)
Theorem C9_lowpt_bounds (s : Tester) (k : nat) :
  wf s → 0 < V s →
  ∃ s1 s2,
    _compute_numbers (S (Z.to_nat (V s)) + k) 0 s = Ok (true, s1) ∧
    _compute_lowpoints s1 = Ok s2 ∧
    ∀ v nv, 0 ≤ v < V s → getitem (num s2) v = Ok nv → nv ≠ -1 →
      ∃ l l2, getitem (lowpt s2) v = Ok l ∧ getitem (lowpt2 s2) v = Ok l2 ∧
        l ≤ nv ∧ l ≤ l2.
Proof.
  intros Hwf HV.
  destruct (_compute_numbers_root_total s k Hwf HV) as (s1 & E1 & Hwf1 & F1).
  destruct (_compute_lowpoints_spec s1 Hwf1) as (s2 & E2 & Hwf2 & F2 & C).
  exists s1, s2. split; [done|]. split; [done|].
  intros v nv Hv Hnv Hvis.
  assert (V s2 = V s) as HV2 by (rewrite (lf_V _ _ F2); apply (nf_V _ _ F1)).
  pose proof Hwf2 as [].
  destruct (getitem_valid (num s2) v) as (nv' & Hl & E); [lia|].
  rewrite E in Hnv. injection Hnv as ->.
  rewrite (lf_num _ _ F2) in Hl.
  destruct (C _ _ Hl Hvis) as (l & Hlow & Hle).
  destruct (getitem_valid (lowpt s2) v) as (l' & Hl' & El); [lia|].
  destruct (getitem_valid (lowpt2 s2) v) as (l2 & Hl2 & El2); [lia|].
  rewrite Hlow in Hl'. injection Hl' as <-.
  exists l, l2. split; [done|]. split; [done|]. split; [done|]. by eapply wf_low0.
Qed.

Lemma C9_lowpt_bounds_witness :
  ∃ s1 s2,
    _compute_numbers 6 0 K5_demo = Ok (true, s1) ∧
    _compute_lowpoints s1 = Ok s2 ∧
    ∀ v nv, 0 ≤ v < 5 → getitem (num s2) v = Ok nv → nv ≠ -1 →
      ∃ l l2, getitem (lowpt s2) v = Ok l ∧ getitem (lowpt2 s2) v = Ok l2 ∧
        l ≤ nv ∧ l ≤ l2.
Proof.
  destruct wf_K5_demo as [Hwf HV].
  refine (C9_lowpt_bounds K5_demo 0 Hwf _).
  rewrite HV. lia.
Defined.

(** ** Lowpoints against their defining equations *)

(** C5 on the graph with the single edge 0 - 1. The outer loop visits
    the vertices in the order 0, 1 of their indices, so vertex 0 reads
    [lowpt[1]] and [lowpt2[1]] while they still hold the initial [-1];
    and the test [num[w] != parent[v]] compares a DFS number with a
    vertex, so vertex 1 takes the tree edge to its parent 0 for a back
    edge. Neither cell of [lowpt] satisfies its equation, nor does cell 0
    of [lowpt2]. *)
Theorem C5_lowpoints_single_edge :
  build 2 [(0, 1)] = Ok single_edge ∧
  ∃ s1 s2,
    _compute_numbers 3 0 single_edge = Ok (true, s1) ∧
    _compute_lowpoints s1 = Ok s2 ∧
    num s2 = [1; 2] ∧ parent s2 = [-1; 0] ∧ edges s2 = [mkEdge 0 1 1] ∧
    lowpt s2 = [-1; 1] ∧ lowpt2 s2 = [-1; 2] ∧
    lowpt_equation s2 0 = 1 ∧ lowpt_equation s2 1 = 2 ∧
    lowpt2_equation s2 0 = 1 ∧ lowpt2_equation s2 1 = 2.
Proof.
  split; [vm_compute; reflexivity|].
  eexists _, _. split; [vm_compute; reflexivity|]. split; [vm_compute; reflexivity|].
  repeat split; vm_compute; reflexivity.
Qed.

(** ** Edge ordering *)

Section stable_sort.
Context {A : Type}.
Implicit Types (x y : (Z * Z) * A) (l : list ((Z * Z) * A)).

Lemma key_ltb_asym a b : key_ltb a b = true → key_le a b.
Proof. unfold key_le, key_ltb. destruct a, b; simpl. lia. Qed.

Lemma key_le_trans a b c : key_le a b → key_le b c → key_le a c.
Proof. unfold key_le, key_ltb. destruct a, b, c; simpl. lia. Qed.

Lemma key_ltb_neq a b : key_ltb a b = true → a ≠ b.
Proof. unfold key_ltb. destruct a, b; simpl. intros H [= -> ->]. lia. Qed.

Lemma insert_by_key_perm x l : insert_by_key x l ≡ₚ x :: l.
Proof.
  induction l as [|y l IH]; simpl; [done|].
  destruct (key_ltb y.1 x.1); [|done].
  rewrite IH. apply Permutation_swap.
Qed.

Lemma stable_sort_perm l : stable_sort l ≡ₚ l.
Proof.
  induction l as [|x l IH]; simpl; [done|].
  rewrite insert_by_key_perm. by rewrite IH.
Qed.

Lemma insert_by_key_sorted x l :
  StronglySorted (λ a b, key_le a.1 b.1) l →
  StronglySorted (λ a b, key_le a.1 b.1) (insert_by_key x l).
Proof.
  induction 1 as [|y l Hl IH Hy]; simpl.
  { repeat constructor. }
  destruct (key_ltb y.1 x.1) eqn:E.
  - constructor; [done|].
    rewrite insert_by_key_perm. constructor; [by apply key_ltb_asym|done].
  - constructor; [by constructor|].
    constructor; [done|].
    eapply Forall_impl; [exact Hy|]. intros z Hz. simpl in *.
    by eapply key_le_trans.
Qed.

Lemma stable_sort_sorted l : StronglySorted (λ a b, key_le a.1 b.1) (stable_sort l).
Proof.
  induction l as [|x l IH]; simpl; [constructor|]. by apply insert_by_key_sorted.
Qed.

(** Stability: among the elements of one key, the order is kept. *)
Lemma insert_by_key_stable k x l :
  filter (λ p, p.1 = k) (insert_by_key x l) = filter (λ p, p.1 = k) (x :: l).
Proof.
  induction l as [|y l IH]; simpl; [done|].
  destruct (key_ltb y.1 x.1) eqn:E; [|done].
  apply key_ltb_neq in E.
  rewrite !filter_cons in *. rewrite IH.
  repeat case_decide; try done. congruence.
Qed.

Lemma stable_sort_stable k l :
  filter (λ p, p.1 = k) (stable_sort l) = filter (λ p, p.1 = k) l.
Proof.
  induction l as [|x l IH]; simpl; [done|].
  rewrite insert_by_key_stable, !filter_cons. by rewrite IH.
Qed.
End stable_sort.

Lemma decorate_Ok s es d :
  decorate s es = Ok d →
  d = map (λ e, (key_of s e, e)) es ∧ Forall (λ e, edge_key s e = Ok (key_of s e)) es.
Proof.
  revert d. induction es as [|e es IH]; intros d H; simpl in H.
  { injection H as <-. by split. }
  destruct (edge_key s e) as [k| |] eqn:Ek; simpl in H; try done.
  destruct (decorate s es) as [r| |]; simpl in H; try done.
  injection H as <-. destruct (IH r eq_refl) as [-> Hall].
  assert (key_of s e = k) as Hk by (unfold key_of; by rewrite Ek).
  split; simpl; [by rewrite Hk|]. constructor; [by rewrite Hk|done].
Qed.

Lemma sorted_map_snd {A} (f : A → Z * Z) (l : list ((Z * Z) * A)) :
  Forall (λ p, p.1 = f p.2) l →
  StronglySorted (λ a b, key_le a.1 b.1) l →
  StronglySorted (λ a b, key_le (f a) (f b)) (map snd l).
Proof.
  intros Hf Hs. induction Hs as [|p l Hl IH Hp]; simpl; [constructor|].
  apply Forall_cons in Hf as [Hfp Hf]. constructor; [by apply IH|].
  apply Forall_forall. intros b Hb. apply list_elem_of_fmap in Hb as (q & -> & Hq).
  rewrite Forall_forall in Hp, Hf. rewrite <- Hfp, <- (Hf q Hq). by apply Hp.
Qed.

Lemma filter_map_snd {A} (f : A → Z * Z) k (l : list ((Z * Z) * A)) :
  Forall (λ p, p.1 = f p.2) l →
  filter (λ a, f a = k) (map snd l) = map snd (filter (λ p, p.1 = k) l).
Proof.
  induction 1 as [|p l Hp Hl IH]; simpl; [done|].
  rewrite !filter_cons, IH. rewrite <- Hp. by case_decide.
Qed.

(** C6, as the code has it. On the triangle the numbering classifies
    (2, 0) as a back edge; [_sort_edges] puts it last, by the number 3 of
    the endpoint 2 it leaves, although the number 1 of its ancestor
    endpoint 0 is smaller than the keys of both tree edges. *)
Lemma C6_back_edge_keyed_by_descendant :
  (s1 ← _compute_numbers 4 0 triangle; s2 ← _compute_lowpoints s1.2; _sort_edges s2)
    = Ok triangle_sorted ∧
  num triangle_sorted = [1; 2; 3] ∧
  edges triangle_sorted = [mkEdge 0 1 1; mkEdge 1 2 1; mkEdge 2 0 (-1)] ∧
  sorted_edges triangle_sorted = [mkEdge 0 1 1; mkEdge 1 2 1; mkEdge 2 0 (-1)] ∧
  edge_key triangle_sorted (mkEdge 2 0 (-1)) = Ok (3, 1) ∧
  spec_edge_key triangle_sorted (mkEdge 2 0 (-1)) = Ok 1 ∧
  ¬ ordered_by_spec_key triangle_sorted (sorted_edges triangle_sorted).
Proof.
  split; [vm_compute; reflexivity|].
  do 5 (split; [vm_compute; reflexivity|]).
  intros H. change (sorted_edges triangle_sorted)
    with [mkEdge 0 1 1; mkEdge 1 2 1; mkEdge 2 0 (-1)] in H.
  apply StronglySorted_inv in H as [_ H].
  apply Forall_cons in H as [_ H]. apply Forall_cons in H as [(ka & kb & Ha & Hb & Hle) _].
  vm_compute in Ha, Hb. injection Ha as <-. injection Hb as <-. lia.
Qed.

(** C6, amended. [_sort_edges] stores in [sorted_edges] a permutation of
    [edges] and changes nothing else. The key of a tree edge is
    [(num[v2], 0)], the number of its child endpoint; the key of a back
    edge is [(num[v1], 1)], the number of the endpoint it leaves, which is
    the descendant. The result is in non-decreasing order of these pairs,
    compared as Python compares tuples, and edges of equal key keep the
    order they have in [edges]. *)
Theorem C6_sort_edges_stable (s s' : Tester) :
  _sort_edges s = Ok s' →
  s' = set_sorted_edges s (sorted_edges s') ∧
  sorted_edges s' ≡ₚ edges s ∧
  (∀ e, e ∈ edges s →
     ∃ n, getitem (num s) (if sign e =? 1 then v2 e else v1 e) = Ok n ∧
       edge_key s e = Ok (n, if sign e =? 1 then 0 else 1) ∧
       key_of s e = (n, if sign e =? 1 then 0 else 1)) ∧
  StronglySorted (λ a b, key_le (key_of s a) (key_of s b)) (sorted_edges s') ∧
  ∀ k, filter (λ e, key_of s e = k) (sorted_edges s') = filter (λ e, key_of s e = k) (edges s).
Proof.
  unfold _sort_edges. intros H.
  destruct (decorate s (edges s)) as [d| |] eqn:Ed; simpl in H; try done.
  injection H as <-. simpl.
  apply decorate_Ok in Ed as [Hd Hall].
  assert (Forall (λ p : (Z * Z) * Edge, p.1 = key_of s p.2) d) as Hd1.
  { rewrite Hd. apply Forall_forall. by intros p (e & -> & _)%list_elem_of_fmap. }
  assert (Forall (λ p : (Z * Z) * Edge, p.1 = key_of s p.2) (stable_sort d)) as Hd2.
  { by rewrite stable_sort_perm. }
  assert (map snd d = edges s) as Hsnd.
  { rewrite Hd, map_map. simpl. apply map_id. }
  split; [done|]. split; [|split; [|split]].
  - rewrite <- Hsnd. apply Permutation_map, stable_sort_perm.
  - intros e He. rewrite Forall_forall in Hall. specialize (Hall e He).
    unfold edge_key in Hall |- *. unfold key_of, edge_key in *.
    destruct (sign e =? 1).
    + destruct (getitem (num s) (v2 e)) as [n| |]; simpl in *; try done. eauto.
    + destruct (getitem (num s) (v1 e)) as [n| |]; simpl in *; try done. eauto.
  - apply sorted_map_snd; [done|apply stable_sort_sorted].
  - intros k. rewrite (filter_map_snd (key_of s)) by done. rewrite stable_sort_stable.
    rewrite <- (filter_map_snd (key_of s)) by done. by rewrite Hsnd.
Qed.

Lemma C6_sort_edges_stable_witness :
  _sort_edges K5_lowpoints = Ok K5_sorted ∧
  sorted_edges K5_sorted ≡ₚ edges K5_lowpoints ∧
  StronglySorted (λ a b, key_le (key_of K5_lowpoints a) (key_of K5_lowpoints b))
    (sorted_edges K5_sorted).
Proof.
  assert (_sort_edges K5_lowpoints = Ok K5_sorted) as H by (vm_compute; reflexivity).
  destruct (C6_sort_edges_stable K5_lowpoints K5_sorted H) as (_ & Hp & _ & Hs & _).
  split; [exact H|]. split; [exact Hp|exact Hs].
Defined.

(** ** The interval stack test: heights *)

Lemma nesting_loop_ge n s : ∀ v w d r, nesting_loop n s v w d = Ok r → d ≤ r.
Proof.
  induction n as [|n IH]; intros v w d r H; simpl in H; [done|].
  destruct (getitem (num s) v) as [nv| |]; simpl in H; try done.
  destruct (getitem (num s) w) as [nw| |]; simpl in H; try done.
  destruct (nv >? nw); [|injection H as <-; lia].
  destruct (getitem (parent s) v) as [pv| |]; simpl in H; try done.
  apply IH in H. lia.
Qed.

Lemma unwind_height s height rest : ∀ top h f',
  Z.of_nat (length (top :: rest)) = h → 0 ≤ height ≤ h →
  unwind s height top rest h = Ok (Continue f') →
  balanced f' ∧ current_height f' = height.
Proof.
  induction rest as [|t rest IH]; intros top h f' Hlen Hh H; cbn [unwind] in H;
    rewrite Z.gtb_ltb in H.
  - destruct (Z.ltb_spec height (Z.of_nat (length [top]))) as [E|E].
    + simpl in H. rewrite Z.gtb_ltb in H. destruct (Z.ltb_spec height 0) as [E0|E0]; [done|].
      injection H as <-. unfold balanced. simpl in *. lia.
    + injection H as <-. unfold balanced. simpl in *. lia.
  - destruct (Z.ltb_spec height (Z.of_nat (length (top :: t :: rest)))) as [E|E].
    + destruct (_merge_edges s top (Some t)) as [[ok t']| |]; simpl in H; try done.
      destruct ok; [|done]. apply IH in H; [done| |]; simpl in *; lia.
    + injection H as <-. unfold balanced. simpl in *. lia.
Qed.

(** A back edge whose nesting depth exceeds the current height ends the
    test with [False], whatever edges follow. *)
Lemma back_edge_overflow fuel s f e d es :
  sign e ≠ 1 → _compute_nesting_depth fuel s e = Ok d → d > current_height f →
  edge_step fuel s f e = Ok NonPlanar ∧ test_loop fuel s (e :: es) f = Ok false.
Proof.
  intros Hs Hd Hgt.
  assert (edge_step fuel s f e = Ok NonPlanar) as H.
  { unfold edge_step, back_edge_step. rewrite (proj2 (Z.eqb_neq _ _) Hs), Hd. simpl.
    by rewrite (proj2 (Z.gtb_gt _ _)) by lia. }
  split; [done|]. simpl. by rewrite H.
Qed.

(** Otherwise the step leaves the stack [d] buckets high, with
    [current_height = d] and, for [d >= 1], the edge at the end of the
    top bucket. *)
Lemma back_edge_step_height fuel s f e d f' :
  balanced f → sign e ≠ 1 → _compute_nesting_depth fuel s e = Ok d →
  edge_step fuel s f e = Ok (Continue f') →
  d ≤ current_height f ∧ balanced f' ∧ current_height f' = d ∧
  (1 ≤ d → ∃ top rest, stack f' = (top ++ [e]) :: rest).
Proof.
  intros Hb Hs Hd H. unfold edge_step, back_edge_step in H.
  rewrite (proj2 (Z.eqb_neq _ _) Hs), Hd in H. simpl in H.
  pose proof (nesting_loop_ge _ _ _ _ _ _ Hd) as Hd0.
  rewrite Z.gtb_ltb in H. destruct (Z.ltb_spec (current_height f) d) as [E|E]; [done|].
  assert (∃ f1, (match stack f with
                 | [] => if 0 >? d then Raise IndexError else Ok (Continue f)
                 | top :: rest => unwind s d top rest (current_height f)
                 end) = Ok (Continue f1) ∧ balanced f1 ∧ current_height f1 = d ∧
                f' = match stack f1 with
                     | [] => f1
                     | top :: rest => mkFrame ((top ++ [e]) :: rest) (current_height f1)
                     end) as (f1 & _ & Hb1 & Hh1 & ->).
  { destruct (match stack f with [] => _ | _ => _ end) as [[f1|]| |] eqn:E1; simpl in H; try done.
    exists f1. split; [done|]. unfold balanced in Hb.
    assert (balanced f1 ∧ current_height f1 = d) as [? ?].
    { destruct (stack f) as [|top rest] eqn:Es.
      - rewrite Z.gtb_ltb in E1. destruct (Z.ltb_spec d 0); [done|]. injection E1 as <-.
        unfold balanced. rewrite Es. simpl in *. lia.
      - eapply unwind_height; [| |exact E1]; [done|lia]. }
    split; [done|]. split; [done|].
    destruct (stack f1); by injection H as <-. }
  split; [lia|]. unfold balanced in *.
  destruct (stack f1) as [|top rest] eqn:Es; simpl in *.
  - rewrite Es. simpl. split; [done|]. split; [done|]. lia.
  - split; [lia|]. split; [done|]. eauto.
Qed.

Lemma edge_step_balanced fuel s f e f' :
  balanced f → edge_step fuel s f e = Ok (Continue f') → balanced f'.
Proof.
  intros Hb H. destruct (decide (sign e = 1)) as [Hs|Hs].
  - unfold edge_step in H. rewrite (proj2 (Z.eqb_eq _ _) Hs) in H.
    injection H as <-. unfold balanced in *. simpl. lia.
  - pose proof H as H'. unfold edge_step, back_edge_step in H'.
    rewrite (proj2 (Z.eqb_neq _ _) Hs) in H'.
    destruct (_compute_nesting_depth fuel s e) as [d| |] eqn:Ed; simpl in H'; try done.
    by destruct (back_edge_step_height fuel s f e d f' Hb Hs Ed H) as (_ & ? & _).
Qed.

(** ** The interval stack test: merging *)

Lemma test_loop_run_steps fuel s es1 es2 : ∀ f f',
  run_steps fuel s es1 f = Ok (Continue f') →
  test_loop fuel s (es1 ++ es2) f = test_loop fuel s es2 f'.
Proof.
  induction es1 as [|e es1 IH]; intros f f' H; simpl in *; [by injection H as <-|].
  destruct (edge_step fuel s f e) as [[f1|]| |]; simpl in *; try done. by apply IH.
Qed.

Lemma crosses_any_true s e1 t :
  crosses_any s e1 t = Ok true → ∃ e2, e2 ∈ t ∧ _edges_cross s e1 e2 = Ok true.
Proof.
  induction t as [|e2 t IH]; simpl; [done|].
  destruct (_edges_cross s e1 e2) as [[|]| |] eqn:E; simpl; try done.
  - intros _. exists e2. split; [left|done].
  - intros (e & He & Hc)%IH. exists e. split; [by right|done].
Qed.

Lemma crosses_any_false s e1 t :
  crosses_any s e1 t = Ok false → ∀ e2, e2 ∈ t → _edges_cross s e1 e2 = Ok false.
Proof.
  induction t as [|e t IH]; simpl; [by intros _ e2 ?%elem_of_nil|].
  destruct (_edges_cross s e1 e) as [[|]| |] eqn:E; simpl; try done.
  intros H e2 [->|He2]%elem_of_cons; [done|by apply IH].
Qed.

(** The nested loops of [_merge_edges] find a crossing exactly when
    there is one. *)
Lemma bucket_crosses_true s b t :
  bucket_crosses s b t = Ok true →
  ∃ e1 e2, e1 ∈ b ∧ e2 ∈ t ∧ _edges_cross s e1 e2 = Ok true.
Proof.
  induction b as [|e b IH]; simpl; [done|].
  destruct (crosses_any s e t) as [[|]| |] eqn:E; simpl; try done.
  - intros _. apply crosses_any_true in E as (e2 & He2 & Hc).
    exists e, e2. split; [left|done].
  - intros (e1 & e2 & He1 & He2 & Hc)%IH. exists e1, e2. split; [by right|done].
Qed.

Lemma bucket_crosses_false s b t :
  bucket_crosses s b t = Ok false →
  ∀ e1 e2, e1 ∈ b → e2 ∈ t → _edges_cross s e1 e2 = Ok false.
Proof.
  induction b as [|e b IH]; simpl; [by intros _ e1 e2 ?%elem_of_nil|].
  destruct (crosses_any s e t) as [[|]| |] eqn:E; simpl; try done.
  intros H e1 e2 [->|He1]%elem_of_cons He2; [by eapply crosses_any_false|by apply IH].
Qed.

(** [_merge_edges] on a target that is not empty: it fails exactly on a
    crossing, and otherwise the target receives the bucket. On an empty
    target it succeeds and the target stays empty. *)
Lemma _merge_edges_spec s b t ok t' :
  _merge_edges s b (Some t) = Ok (ok, t') →
  (t = [] → ok = true ∧ t' = Some []) ∧
  (t ≠ [] →
     if ok then t' = Some (t ++ b) ∧ bucket_crosses s b t = Ok false
     else t' = Some t ∧ bucket_crosses s b t = Ok true).
Proof.
  unfold _merge_edges. destruct t as [|e t].
  - intros [= <- <-]. by split.
  - destruct (bucket_crosses s b (e :: t)) as [[|]| |]; simpl; try done;
      intros [= <- <-]; by split.
Qed.

(** C3 on the cycle 0 - 1 - 2 - 3 - 0 with vertex 4 joined to 3 and 2.
    When the back edge (4, 2), of nesting depth 2, is consumed, the stack
    is four buckets high and the bucket below the top holds the back edge
    (3, 0). Two buckets are popped. The second one, [(3, 0)], meets an
    empty bucket as the new top: [_merge_edges] returns [True] at
    [if not target] without extending the target, and (3, 0) is in no
    bucket afterwards, whereas merging it into the new top bucket leaves
    (3, 0) and (4, 2) there. The heights are the specified ones. *)
Theorem C3_popped_bucket_dropped :
  let B30 := mkEdge 3 0 (-1) in
  let B42 := mkEdge 4 2 (-1) in
  build 5 [(0, 1); (1, 2); (2, 3); (3, 0); (3, 4); (4, 2)] = Ok chord_graph ∧
  (s1 ← _compute_numbers 6 0 chord_graph; s2 ← _compute_lowpoints s1.2; _sort_edges s2)
    = Ok chord_sorted ∧
  sorted_edges chord_sorted
    = [mkEdge 0 1 1; mkEdge 1 2 1; mkEdge 2 3 1; B30; mkEdge 3 4 1; B42] ∧
  run_steps 6 chord_sorted [mkEdge 0 1 1; mkEdge 1 2 1; mkEdge 2 3 1; B30; mkEdge 3 4 1]
    (mkFrame [] 0) = Ok (Continue (mkFrame [[]; [B30]; []; []] 4)) ∧
  _compute_nesting_depth 6 chord_sorted B42 = Ok 2 ∧
  _merge_edges chord_sorted [B30] (Some []) = Ok (true, Some []) ∧
  edge_step 6 chord_sorted (mkFrame [[]; [B30]; []; []] 4) B42
    = Ok (Continue (mkFrame [[B42]; []] 2)) ∧
  spec_edge_step 6 chord_sorted (mkFrame [[]; [B30]; []; []] 4) B42
    = Ok (Continue (mkFrame [[B30; B42]; []] 2)).
Proof. repeat split; vm_compute; reflexivity. Qed.

(** The dropped buckets show in the verdict: on K5 without the edges
    0 - 2 and 0 - 4 the test as coded answers [True], and the test that
    keeps the edges of every popped bucket answers [False]. *)
Lemma dropped_buckets_change_verdict :
  (s1 ← _compute_numbers 6 0 K5_less_two; s2 ← _compute_lowpoints s1.2; _sort_edges s2)
    = Ok K5_less_two_sorted ∧
  _test_planarity 6 K5_less_two_sorted = Ok true ∧
  spec_test_loop 6 K5_less_two_sorted (sorted_edges K5_less_two_sorted) (mkFrame [] 0)
    = Ok false.
Proof. repeat split; vm_compute; reflexivity. Qed.

(** ** Components *)


(** ** Only the component of vertex 0 is looked at *)

(** The phases after the numbering never read [self.graph] except, in
    [_compute_lowpoints], at numbered vertices. *)

Section component.
Variable g g' : gmap Z (list Z).
Variable C : Z → Prop.
Hypothesis C_nonneg : ∀ v, C v → 0 ≤ v.
Hypothesis C_closed : ∀ v w, C v → w ∈ default [] (g !! v) → C w.
Hypothesis C_agree : ∀ v, C v → default [] (g' !! v) = default [] (g !! v).



Lemma py_index_nonneg len v k : 0 ≤ v → py_index len v = Some k → k = Z.to_nat v.
Proof.
  intros Hv. unfold py_index.
  destruct ((0 <=? v) && (v <? Z.of_nat len)); [by intros [= <-]|].
  destruct ((- Z.of_nat len <=? v) && (v <? 0)) eqn:E; [|done]. lia.
Qed.

Lemma numbers_loop_numbered n v :
  (∀ w s b s', C w → graph s = g → numbered_in C s →
     _compute_numbers n w s = Ok (b, s') → numbered_in C s') →
  ∀ ws s b s', (∀ w, w ∈ ws → C w) → graph s = g → numbered_in C s →
    numbers_loop (_compute_numbers n) v ws s = Ok (b, s') → numbered_in C s'.
Proof.
  intros Hrec ws. induction ws as [|w ws IH]; intros s b s' Hws Hg Hin H; simpl in H.
  { by injection H as <- <-. }
  assert (C w) as Hw by (apply Hws; left).
  assert (∀ w', w' ∈ ws → C w') as Hws' by (intros; apply Hws; by right).
  destruct (getitem (num s) w) as [nw| |]; simpl in H; try done.
  destruct (nw =? -1).
  - destruct (setitem (parent s) w v) as [p| |]; simpl in H; try done.
    match type of H with context [_compute_numbers n w ?t] =>
      destruct (_compute_numbers n w t) as [[ok s2]| |] eqn:E; simpl in H; try done end.
    destruct ok; [|injection H as <- <-; by eapply Hrec; [| | |exact E]].
    eapply (IH s2); [done| | |exact H].
    + apply _compute_numbers_frame in E as [_ F]. by rewrite (nf_graph _ _ F).
    + by eapply Hrec; [| | |exact E].
  - destruct (getitem (num s) v) as [nv| |]; simpl in H; try done.
    destruct (nw <? nv); [|by eapply IH].
    destruct (getitem (parent s) v) as [pv| |]; simpl in H; try done.
    destruct (negb (w =? pv)); [|by eapply IH].
    by eapply (IH (set_edges s _)).
Qed.

Lemma _compute_numbers_numbered n : ∀ v s b s',
  C v → graph s = g → numbered_in C s →
  _compute_numbers n v s = Ok (b, s') → numbered_in C s'.
Proof.
  induction n as [|n IH]; intros v s b s' Hv Hg Hin H; simpl in H; [done|].
  destruct (setitem (num s) v (counter s + 1)) as [l| |] eqn:El; simpl in H; try done.
  apply setitem_Ok in El as (k & Hk & Hlt & ->).
  apply py_index_nonneg in Hk; [|by apply C_nonneg]. subst k.
  eapply (numbers_loop_numbered n v IH); [| | |exact H]; simpl.
  - intros w Hw. apply (C_closed v w Hv). unfold adj in Hw. simpl in Hw. by rewrite Hg in Hw.
  - done.
  - intros i x Hi Hx. simpl in Hi. destruct (decide (i = Z.to_nat v)) as [->|Hne].
    + rewrite Z2Nat.id by (by apply C_nonneg). done.
    + rewrite list_lookup_insert_ne in Hi by done. by eapply Hin.
Qed.


Lemma lowpoints_loop_keeps v ws : ∀ s s',
  lowpoints_loop v ws s = Ok s' → lowpoint_frame s s'.
Proof.
  induction ws as [|w ws IH]; intros s s' H; simpl in H.
  { injection H as <-. apply lowpoint_frame_refl. }
  destruct (getitem (num s) w) as [nw| |]; simpl in H; try done.
  destruct (getitem (num s) v) as [nv| |]; simpl in H; try done.
  assert (∀ l, lowpoints_loop v ws (set_lowpt s l) = Ok s' → lowpoint_frame s s') as Hone.
  { intros l H'. apply IH in H' as []. by split. }
  assert (∀ l l2, lowpoints_loop v ws (set_lowpt2 (set_lowpt s l) l2) = Ok s' →
    lowpoint_frame s s') as Hboth.
  { intros l l2 H'. apply IH in H' as []. by split. }
  assert ((if nw >? nv
      then lv ← getitem (lowpt s) v; lw ← getitem (lowpt s) w;
           l ← setitem (lowpt s) v (Z.min lv lw);
           lv2 ← getitem (lowpt2 (set_lowpt s l)) v;
           lw2 ← getitem (lowpt2 (set_lowpt s l)) w;
           l2 ← setitem (lowpt2 (set_lowpt s l)) v (Z.min lv2 lw2);
           lowpoints_loop v ws (set_lowpt2 (set_lowpt s l) l2)
      else lowpoints_loop v ws s) = Ok s' → lowpoint_frame s s') as Helse.
  { destruct (nw >? nv); [|apply IH].
    destruct (getitem (lowpt s) v) as [lv| |]; simpl; try done.
    destruct (getitem (lowpt s) w) as [lw| |]; simpl; try done.
    destruct (setitem (lowpt s) v _) as [l| |]; simpl; try done.
    destruct (getitem (lowpt2 s) v) as [lv2| |]; simpl; try done.
    destruct (getitem (lowpt2 s) w) as [lw2| |]; simpl; try done.
    destruct (setitem (lowpt2 s) v _) as [l2| |]; simpl; try done.
    apply Hboth. }
  destruct (nw <? nv).
  - destruct (getitem (parent s) v) as [pv| |]; simpl in H; try done.
    destruct (negb (nw =? pv)); simpl in H; [|by apply Helse].
    destruct (getitem (lowpt s) v) as [lv| |]; simpl in H; try done.
    destruct (setitem (lowpt s) v _) as [l| |]; simpl in H; try done.
    by eapply Hone.
  - by apply Helse.
Qed.

Lemma lowpoints_vertex_keeps v s s' :
  lowpoints_vertex v s = Ok s' → lowpoint_frame s s'.
Proof.
  unfold lowpoints_vertex. intros H.
  destruct (getitem (num s) v) as [nv| |] eqn:Env; simpl in H; try done.
  destruct (negb (nv =? -1)); [|injection H as <-; apply lowpoint_frame_refl].
  destruct (setitem (lowpt s) v nv) as [l| |]; simpl in H; try done.
  rewrite Env in H. simpl in H.
  destruct (setitem (lowpt2 s) v nv) as [l2| |]; simpl in H; try done.
  apply lowpoints_loop_keeps in H as []. by split.
Qed.

Lemma lowpoints_range_keeps vs : ∀ s s',
  lowpoints_range vs s = Ok s' → lowpoint_frame s s'.
Proof.
  induction vs as [|v vs IH]; intros s s' H; simpl in H.
  { injection H as <-. apply lowpoint_frame_refl. }
  destruct (lowpoints_vertex v s) as [s1| |] eqn:E; simpl in H; try done.
  eapply lowpoint_frame_trans; [by eapply lowpoints_vertex_keeps|by apply IH].
Qed.




End component.

(** The edge ordering and the interval stack test read [num], [parent]
    and the edge lists only. *)













(** ** Repeated invocations *)

(** ** What a call of [is_planar] leaves behind *)

Lemma _compute_numbers_counter n v s b s' :
  _compute_numbers n v s = Ok (b, s') → counter s < counter s'.
Proof.
  destruct n as [|n]; simpl; [done|]. intros H.
  destruct (setitem _ _ _) as [l| |]; simpl in H; try done.
  apply (numbers_loop_frame _ _ (_compute_numbers_frame n)) in H as [_ F].
  pose proof (nf_counter _ _ F) as Hc. simpl in Hc. lia.
Qed.

Lemma stays_numbered_refl s : stays_numbered s s.
Proof. intros i x Hi Hx. eauto. Qed.

Lemma stays_numbered_trans s1 s2 s3 :
  stays_numbered s1 s2 → stays_numbered s2 s3 → stays_numbered s1 s3.
Proof. intros H1 H2 i x Hi Hx. destruct (H1 i x Hi Hx) as (x' & Hi' & Hx'). eauto. Qed.

Lemma numbers_loop_stays n v :
  (∀ w s b s', 0 ≤ counter s → _compute_numbers n w s = Ok (b, s') → stays_numbered s s') →
  ∀ ws s b s', 0 ≤ counter s →
    numbers_loop (_compute_numbers n) v ws s = Ok (b, s') → stays_numbered s s'.
Proof.
  intros Hrec ws. induction ws as [|w ws IH]; intros s b s' Hc H; simpl in H.
  { injection H as <- <-. apply stays_numbered_refl. }
  destruct (getitem (num s) w) as [nw| |]; simpl in H; try done.
  destruct (nw =? -1).
  - destruct (setitem (parent s) w v) as [p| |]; simpl in H; try done.
    match type of H with context [_compute_numbers n w ?t] =>
      destruct (_compute_numbers n w t) as [[ok s2]| |] eqn:E; simpl in H; try done end.
    assert (stays_numbered s s2) as S1.
    { match type of E with _compute_numbers _ _ ?t = _ =>
        exact (Hrec w t ok s2 Hc E) end. }
    destruct ok; [|by injection H as <- <-].
    apply _compute_numbers_frame in E as [_ F]. pose proof (nf_counter _ _ F) as Hc2.
    simpl in Hc2. eapply stays_numbered_trans; [exact S1|].
    eapply IH; [|exact H]. lia.
  - destruct (getitem (num s) v) as [nv| |]; simpl in H; try done.
    destruct (nw <? nv); [|by eapply IH].
    destruct (getitem (parent s) v) as [pv| |]; simpl in H; try done.
    destruct (negb (w =? pv)); [|by eapply IH].
    by eapply (IH (set_edges s _)).
Qed.

Lemma _compute_numbers_stays n : ∀ v s b s',
  0 ≤ counter s → _compute_numbers n v s = Ok (b, s') → stays_numbered s s'.
Proof.
  induction n as [|n IH]; intros v s b s' Hc H; simpl in H; [done|].
  destruct (setitem (num s) v (counter s + 1)) as [l| |] eqn:El; simpl in H; try done.
  apply setitem_Ok in El as (k & _ & Hlt & ->).
  eapply stays_numbered_trans; [|eapply (numbers_loop_stays n v IH); [|exact H]; simpl; lia].
  intros i x Hi Hx. simpl. destruct (decide (i = k)) as [->|Hne].
  - exists (counter s + 1). split; [by apply list_lookup_insert_eq|lia].
  - exists x. by rewrite list_lookup_insert_ne.
Qed.

(** The phases of [is_planar] keep a tester well formed, so that a
    tester built by [add_edge] calls on vertices of [0, V) is well formed
    at every call. *)
Lemma is_planar_wf fuel s b s' : wf s → is_planar fuel s = Ok (b, s') → wf s'.
Proof.
  intros Hwf H. unfold is_planar in H.
  destruct (_compute_numbers fuel 0 s) as [[ok s1]| |] eqn:E1; simpl in H; try done.
  apply _compute_numbers_frame in E1 as [-> F1]. simpl in H.
  pose proof (wf_frame _ _ Hwf F1) as Hwf1.
  destruct (_compute_lowpoints_spec s1 Hwf1) as (s2 & E2 & Hwf2 & _).
  rewrite E2 in H. simpl in H. unfold _sort_edges in H.
  destruct (decorate s2 (edges s2)) as [d| |]; simpl in H; try done.
  destruct (_test_planarity _ _) as [b'| |]; simpl in H; try done.
  injection H as <- <-. destruct Hwf2. by split.
Qed.

(** [is_planar] works on the arrays, the counter and the edge list the
    tester holds on entry, and leaves them modified. After a call that
    returns, the graph is as before, the counter is strictly larger, the
    edges recorded before the call are still there, followed by those
    the call recorded, and every vertex that was numbered on entry is
    still numbered, so that the next call does not traverse it again. *)
Lemma is_planar_state_persists (fuel : nat) (s s' : Tester) (b : bool) :
  0 ≤ counter s →
  is_planar fuel s = Ok (b, s') →
  V s' = V s ∧ graph s' = graph s ∧
  counter s < counter s' ∧
  (∃ new, edges s' = edges s ++ new) ∧
  stays_numbered s s'.
Proof.
  intros Hc H. unfold is_planar in H.
  destruct (_compute_numbers fuel 0 s) as [[ok s1]| |] eqn:E1; simpl in H; try done.
  pose proof (_compute_numbers_counter _ _ _ _ _ E1) as Hc1.
  pose proof (_compute_numbers_stays _ _ _ _ _ Hc E1) as S1.
  apply _compute_numbers_frame in E1 as [-> F1]. simpl in H.
  destruct (_compute_lowpoints s1) as [s2| |] eqn:E2; simpl in H; try done.
  apply lowpoints_range_keeps in E2 as [].
  unfold _sort_edges in H.
  destruct (decorate s2 (edges s2)) as [d| |]; simpl in H; try done.
  destruct (_test_planarity _ _) as [b'| |]; simpl in H; try done.
  injection H as <- <-. simpl. destruct F1.
  split; [congruence|]. split; [congruence|]. split; [lia|]. split.
  - rewrite lf_edges0. done.
  - intros i x Hi Hx. simpl. rewrite lf_num0. by apply (S1 i x).
Qed.

(** ** A second call on the same tester *)

Lemma is_planar_phases fuel s s1 s3 :
  _compute_numbers fuel 0 s = Ok (true, s1) →
  (s2 ← _compute_lowpoints s1; _sort_edges s2) = Ok s3 →
  is_planar fuel s = (b ← _test_planarity fuel s3; Ok (b, s3)).
Proof.
  intros E1 E2. unfold is_planar. rewrite E1. simpl.
  destruct (_compute_lowpoints s1) as [s2| |]; simpl in *; [|done..].
  by rewrite E2.
Qed.

(** A back edge whose walk up the parent chain does not end keeps the
    loop of [_test_planarity] from ending, when only tree edges come
    before it. *)
Lemma test_loop_diverges fuel s e es : ∀ pre f,
  Forall (λ t, sign t = 1) pre → sign e ≠ 1 →
  _compute_nesting_depth fuel s e = Diverge →
  test_loop fuel s (pre ++ e :: es) f = Diverge.
Proof.
  induction pre as [|t pre IH]; intros f Hpre He Hd; simpl.
  - unfold edge_step. rewrite (proj2 (Z.eqb_neq _ _) He).
    unfold back_edge_step. by rewrite Hd.
  - apply Forall_cons in Hpre as [Ht Hpre]. unfold edge_step. rewrite Ht. simpl.
    by apply IH.
Qed.

(** On the second call for the fork the walk from vertex 0 towards
    vertex 1 goes 0, [parent[0] = -1], that is the last cell, whose
    parent is 0 again: with any fuel it runs out. *)
Lemma fork_walk_cycles fuel : ∀ d,
  nesting_loop fuel fork_twice_sorted 0 1 d = Diverge ∧
  nesting_loop fuel fork_twice_sorted (-1) 1 d = Diverge.
Proof.
  induction fuel as [|fuel IH]; intros d; [done|].
  destruct (IH (d + 1)) as [IH0 IH1]. split.
  - change (nesting_loop (S fuel) fork_twice_sorted 0 1 d)
      with (nesting_loop fuel fork_twice_sorted (-1) 1 (d + 1)). exact IH1.
  - change (nesting_loop (S fuel) fork_twice_sorted (-1) 1 d)
      with (nesting_loop fuel fork_twice_sorted 0 1 (d + 1)). exact IH0.
Qed.

(** C7. [is_planar] does not compute its derived state anew: [num],
    [parent], [counter] and [edges] are set in the constructor only, and
    a second call on the same tester works on what the first one left.
    On the fork (vertex 0 joined to 1 and 2) the first call returns
    [True] and the second call does not return: no fuel is enough, the
    walk of [_compute_nesting_depth] cycles. On the triangle the first
    call returns [True] and the second [False], after recording (0, 1),
    the tree edge into vertex 1 ([parent[1]] is 0), as a back edge, and
    the edge between 0 and 2 a second time. The entry point in the words
    of the specification,
    which starts from new derived state, returns [True] on both testers
    at the second call as at the first. *)
Theorem C7_second_call_on_stale_state :
  (build 3 [(0, 1); (0, 2)] = Ok fork ∧
   (∀ k, is_planar (4 + k) fork = Ok (true, fork_once)) ∧
   (∀ fuel, is_planar fuel fork_once = Diverge) ∧
   (∀ k, verdict (spec_is_planar (4 + k) fork_once) = Ok true)) ∧
  (build 3 [(0, 1); (1, 2); (0, 2)] = Ok triangle ∧
   (∀ k, is_planar (4 + k) triangle = Ok (true, triangle_once)) ∧
   (∀ k, is_planar (4 + k) triangle_once = Ok (false, triangle_twice)) ∧
   edges triangle_twice = edges triangle_once ++ [mkEdge 0 1 (-1); mkEdge 0 2 (-1)] ∧
   parent triangle_twice !! 1%nat = Some 0 ∧
   (∀ k, verdict (spec_is_planar (4 + k) triangle_once) = Ok true)).
Proof.
  split; repeat split;
    try (intros k; apply (is_planar_mono 4); [lia|by vm_compute|done]);
    try (intros k; apply verdict_is_planar_mono; by vm_compute);
    try (by vm_compute).
  intros [|n]; [done|].
  rewrite (is_planar_phases (S n) fork_once fork_twice_numbered fork_twice_sorted).
  - unfold _test_planarity.
    rewrite (test_loop_diverges (S n) fork_twice_sorted (mkEdge 0 1 (-1)) [mkEdge 0 2 (-1)]
               [mkEdge 0 1 1; mkEdge 0 2 1]); [done| |done|].
    + by repeat constructor.
    + apply fork_walk_cycles.
  - apply (_compute_numbers_mono 1); [lia|by vm_compute|done].
  - by vm_compute.
Qed.

(** ** The entry point on graphs without edges *)

(** With at least one vertex and no edge, [is_planar] returns [True]. *)
Lemma is_planar_no_edges (vertices : Z) (fuel : nat) :
  0 < vertices → verdict (is_planar (S fuel) (init vertices)) = Ok true.
Proof.
  intros HV. unfold is_planar. cbn [_compute_numbers].
  assert (wf (init vertices)) as Hwf by (apply wf_init; lia).
  rewrite setitem_valid by (simpl; rewrite length_replicate; lia).
  cbn [mbind result_bind]. set (s1 := set_num _ _).
  assert (adj s1 0 = []) as -> by (unfold adj; simpl; by rewrite lookup_empty).
  cbn [numbers_loop mbind result_bind negb].
  assert (wf s1) as Hwf1.
  { destruct Hwf. split; simpl in *; rewrite ?length_insert; try done; lia. }
  destruct (_compute_lowpoints_spec s1 Hwf1) as (s2 & -> & _ & [] & _).
  cbn [mbind result_bind]. unfold _sort_edges. rewrite lf_edges0. simpl. done.
Qed.

(** C8. On a tester with no vertex and no edge [is_planar] does not
    return [True]: the root of the traversal is the constant 0, and
    [self.num[0] = ...] on the empty list raises [IndexError]. With one
    vertex or more and no edge it returns [True]. *)
Theorem C8_no_vertices_raises (fuel : nat) :
  is_planar (S fuel) (init 0) = Raise IndexError ∧
  ∀ vertices, 0 < vertices → verdict (is_planar (S fuel) (init vertices)) = Ok true.
Proof.
  split; [reflexivity|]. intros vertices HV. by apply is_planar_no_edges.
Qed.

(** * Further properties of the code *)

(** ** [add_edge] and the adjacency lists *)

Lemma add_edge_adj s u v s' x :
  add_edge s u v = Ok s' →
  adj s' x = adj s x ++ (if decide (u = x) then [v] else [])
                     ++ (if decide (v = x) then [u] else []).
Proof.
  intros [= <-]. unfold adj, set_graph; cbn [graph].
  destruct (decide (v = x)) as [->|Hv].
  - rewrite lookup_insert_eq. simpl. destruct (decide (u = x)) as [->|Hu].
    + rewrite lookup_insert_eq. simpl. by rewrite <- app_assoc.
    + rewrite lookup_insert_ne by done. done.
  - rewrite lookup_insert_ne by done. destruct (decide (u = x)) as [->|Hu].
    + rewrite lookup_insert_eq. simpl. done.
    + rewrite lookup_insert_ne by done. simpl. by rewrite app_nil_r.
Qed.

Lemma add_edges_adj es : ∀ s,
  ∃ s', add_edges s es = Ok s' ∧ (∀ x, adj s' x = adj s x ++ incident x es) ∧
    s' = set_graph s (graph s').
Proof.
  induction es as [|[u v] es IH]; intros s.
  { exists s. split; [done|]. split; [|by destruct s].
    intros x. unfold incident. simpl. by rewrite app_nil_r. }
  cbn [add_edges]. destruct (add_edge s u v) as [s1| |] eqn:E1; try done.
  destruct (IH s1) as (s' & E & Hadj & Hs'). exists s'. simpl. split; [done|]. split.
  - intros x. rewrite Hadj, (add_edge_adj _ _ _ _ x E1). unfold incident. simpl.
    by rewrite <- !app_assoc.
  - injection E1 as <-. rewrite Hs'. done.
Qed.

(** X1. The adjacency lists are exactly what the [add_edge] calls put
    there: on the tester built from a new one by the calls [es] (any
    integers, in any number), the list of [x] holds, in the order of the
    calls, [v] for every call [add_edge(x, v)] and [u] for every call
    [add_edge(u, x)] (both for [add_edge(x, x)]), and nothing but the
    graph differs from the new tester. *)
Theorem X1_build_adjacency (vertices : Z) (es : list (Z * Z)) :
  ∃ s, build vertices es = Ok s ∧
    (∀ x, adj s x = incident x es) ∧
    s = set_graph (init vertices) (graph s).
Proof.
  destruct (add_edges_adj es (init vertices)) as (s & E & Hadj & Hs).
  exists s. split; [done|]. split; [|done].
  intros x. rewrite Hadj. unfold adj at 1. simpl. by rewrite lookup_empty.
Qed.

Lemma elem_of_incident w x es :
  w ∈ incident x es ↔ ∃ e, e ∈ es ∧ ((e.1 = x ∧ e.2 = w) ∨ (e.2 = x ∧ e.1 = w)).
Proof.
  unfold incident. rewrite list_elem_of_In, in_flat_map. split.
  - intros (e & He & Hw). exists e. rewrite list_elem_of_In. split; [done|].
    apply in_app_or in Hw as [Hw|Hw]; case_decide; simpl in Hw; try done.
    + left. destruct Hw as [<-|[]]. done.
    + right. destruct Hw as [<-|[]]. done.
  - intros (e & He & Hw). exists e. rewrite <- list_elem_of_In. split; [done|].
    apply in_or_app. destruct Hw as [[Hx <-]|[Hx <-]].
    + left. rewrite decide_True by done. by left.
    + right. rewrite decide_True by done. by left.
Qed.

(** X2. The store is symmetric: on a tester built by [add_edge] calls,
    [w] is in the adjacency list of [v] exactly when [v] is in the
    adjacency list of [w]. *)
Theorem X2_adjacency_symmetric (vertices : Z) (es : list (Z * Z)) (s : Tester) (v w : Z) :
  build vertices es = Ok s → (w ∈ adj s v ↔ v ∈ adj s w).
Proof.
  intros H. destruct (add_edges_adj es (init vertices)) as (s' & E & Hadj & _).
  unfold build in H. rewrite E in H. injection H as ->.
  rewrite !Hadj. unfold adj. simpl. rewrite !lookup_empty. simpl.
  rewrite !elem_of_incident. split; intros (e & He & Hw); exists e; (split; [done|]);
    destruct Hw as [[? ?]|[? ?]]; auto.
Qed.

Lemma X2_adjacency_symmetric_witness : 2 ∈ adj triangle 0 ↔ 0 ∈ adj triangle 2.
Proof.
  apply (X2_adjacency_symmetric 3 [(0, 1); (1, 2); (0, 2)]). vm_compute. reflexivity.
Defined.

(** ** The crossing test *)

Ltac case_ltb :=
  repeat match goal with
  | |- context [?a <? ?b] => destruct (Z.ltb_spec a b)
  | H : context [?a <? ?b] |- _ => destruct (Z.ltb_spec a b)
  end.

Lemma getitem_cases (l : list Z) i :
  (∃ x, getitem l i = Ok x) ∨ getitem l i = Raise IndexError.
Proof.
  unfold getitem. destruct (py_index (length l) i) as [n|]; [|by right].
  destruct (l !! n); [left; eauto|by right].
Qed.

Ltac read_cells :=
  repeat match goal with
  | |- context [getitem ?l ?i] =>
    let x := fresh "n" in
    destruct (getitem_cases l i) as [[x ->]| ->]; simpl; try reflexivity
  end.

Lemma _edges_cross_comm s e1 e2 : _edges_cross s e1 e2 = _edges_cross s e2 e1.
Proof.
  unfold _edges_cross. read_cells.
  all: case_ltb; simpl; try reflexivity.
  all: f_equal; case_ltb; simpl; try reflexivity; exfalso; lia.
Qed.

Lemma _edges_cross_flip s a b sg sg' e2 :
  _edges_cross s (mkEdge a b sg) e2 = _edges_cross s (mkEdge b a sg') e2.
Proof.
  unfold _edges_cross. simpl. read_cells.
  all: case_ltb; simpl; try reflexivity.
  all: f_equal; case_ltb; simpl; try reflexivity; exfalso; lia.
Qed.

(** X3. [_edges_cross] does not depend on the order of its two
    arguments, nor on the direction or the sign of an edge: it gives the
    same answer, or raises alike, for [(e1, e2)] and [(e2, e1)] and when
    the endpoints of the first edge are exchanged. *)
Theorem X3_edges_cross_symmetric (s : Tester) (e1 e2 : Edge) (sg : Z) :
  _edges_cross s e1 e2 = _edges_cross s e2 e1 ∧
  _edges_cross s (mkEdge (v2 e1) (v1 e1) sg) e2 = _edges_cross s e1 e2.
Proof.
  split; [apply _edges_cross_comm|].
  destruct e1 as [a b sg1]. simpl. apply _edges_cross_flip.
Qed.

(** X4. Two edges that have an endpoint in common never cross, and no
    edge crosses itself: when [_edges_cross] returns, it returns [False]
    for them. *)
Theorem X4_shared_endpoint_no_crossing (s : Tester) (e1 e2 : Edge) (c : bool) :
  share_endpoint e1 e2 → _edges_cross s e1 e2 = Ok c → c = false.
Proof.
  unfold share_endpoint, _edges_cross. intros Hsh.
  destruct (getitem (num s) (v1 e1)) as [a1| |] eqn:E1; simpl; try done.
  destruct (getitem (num s) (v2 e1)) as [b1| |] eqn:E2; simpl; try done.
  destruct (getitem (num s) (v1 e2)) as [a2| |] eqn:E3; simpl.
  2,3: by destruct (b1 <? a1).
  destruct (getitem (num s) (v2 e2)) as [b2| |] eqn:E4; simpl.
  2,3: by destruct (b1 <? a1).
  assert (a1 = a2 ∨ a1 = b2 ∨ b1 = a2 ∨ b1 = b2) as Heq.
  { destruct Hsh as [H|[H|[H|H]]]; rewrite H in *; [left|right; left|right; right; left|
      right; right; right]; congruence. }
  case_ltb; simpl; case_ltb; simpl; intros [= <-]; try reflexivity; exfalso; lia.
Qed.

Lemma X4_shared_endpoint_no_crossing_witness :
  ∃ c, _edges_cross K5_sorted (mkEdge 3 0 (-1)) (mkEdge 3 1 (-1)) = Ok c ∧ c = false.
Proof.
  exists false. split; [vm_compute; reflexivity|].
  apply (X4_shared_endpoint_no_crossing K5_sorted (mkEdge 3 0 (-1)) (mkEdge 3 1 (-1)) false);
    [by left|vm_compute; reflexivity].
Defined.

(** ** Merging buckets *)

(** X5. [_merge_edges] completely: when it returns, it has failed exactly
    if there is a target and an edge of the bucket crosses an edge of it;
    after a failure the target is as before; after a success a target
    that was not empty holds its edges followed by those of the bucket,
    and an empty or absent target is as before. *)
Theorem X5_merge_edges (s : Tester) (bucket : list Edge) (target : option (list Edge))
    (ok : bool) (t' : option (list Edge)) :
  _merge_edges s bucket target = Ok (ok, t') →
  (ok = false ↔
     ∃ t e1 e2, target = Some t ∧ e1 ∈ bucket ∧ e2 ∈ t ∧ _edges_cross s e1 e2 = Ok true) ∧
  t' = match target with
       | Some (e :: t) => if ok then Some ((e :: t) ++ bucket) else target
       | _ => target
       end.
Proof.
  unfold _merge_edges. destruct target as [[|e t]|].
  - intros [= <- <-]. split; [|done]. split; [done|].
    intros (t & e1 & e2 & [= <-] & _ & He2 & _). by apply elem_of_nil in He2.
  - destruct (bucket_crosses s bucket (e :: t)) as [[|]| |] eqn:E; simpl; try done;
      intros [= <- <-]; (split; [|done]).
    + split; [|done]. intros _. apply bucket_crosses_true in E as (e1 & e2 & ? & ? & ?).
      by exists (e :: t), e1, e2.
    + split; [done|]. intros (t0 & e1 & e2 & [= <-] & He1 & He2 & Hc).
      rewrite (bucket_crosses_false _ _ _ E e1 e2 He1 He2) in Hc. done.
  - intros [= <- <-]. split; [|done]. split; [done|]. by intros (t & e1 & e2 & ? & _).
Qed.

Lemma X5_merge_edges_witness :
  let B30 := mkEdge 3 0 (-1) in
  let B20 := mkEdge 2 0 (-1) in
  (true = false ↔
     ∃ t e1 e2, Some [B20] = Some t ∧ e1 ∈ [B30] ∧ e2 ∈ t ∧
       _edges_cross K5_sorted e1 e2 = Ok true) ∧
  Some [B20; B30] = Some ([B20] ++ [B30]).
Proof.
  intros B30 B20.
  apply (X5_merge_edges K5_sorted [B30] (Some [B20]) true (Some [B20; B30])).
  vm_compute. reflexivity.
Defined.

(** ** The loop of [_test_planarity] *)

(** X6. A back edge whose nesting depth is larger than [current_height]
    ends the test: the step returns [False] at once, and so does the
    whole loop, whatever edges come after it. *)
Theorem X6_depth_overflow (fuel : nat) (s : Tester) (f : Frame) (e : Edge) (d : Z)
    (es : list Edge) :
  sign e ≠ 1 → _compute_nesting_depth fuel s e = Ok d → d > current_height f →
  edge_step fuel s f e = Ok NonPlanar ∧ test_loop fuel s (e :: es) f = Ok false.
Proof. apply back_edge_overflow. Qed.

Lemma X6_depth_overflow_witness :
  let e := mkEdge 4 0 (-1) in
  let f := mkFrame [[]; [mkEdge 2 0 (-1); mkEdge 3 0 (-1); mkEdge 3 1 (-1)]; []] 3 in
  edge_step 6 K5_sorted f e = Ok NonPlanar ∧
  test_loop 6 K5_sorted [e; mkEdge 4 1 (-1); mkEdge 4 2 (-1)] f = Ok false.
Proof.
  intros e f.
  apply (X6_depth_overflow 6 K5_sorted f e 4); [vm_compute; discriminate| |simpl; lia].
  vm_compute. reflexivity.
Defined.

(** X7. A back edge [e] of nesting depth [d], consumed on a stack that
    is as high as [current_height] says: if the step goes on, then [d]
    was at most the height, the stack is [d] buckets high afterwards,
    [current_height] is [d], and for [d >= 1] the edge is the last one
    of the top bucket. *)
Theorem X7_back_edge_heights (fuel : nat) (s : Tester) (f f' : Frame) (e : Edge) (d : Z) :
  balanced f → sign e ≠ 1 → _compute_nesting_depth fuel s e = Ok d →
  edge_step fuel s f e = Ok (Continue f') →
  d ≤ current_height f ∧ Z.of_nat (length (stack f')) = d ∧ current_height f' = d ∧
  (1 ≤ d → ∃ top rest, stack f' = (top ++ [e]) :: rest).
Proof.
  intros Hb Hs Hd H.
  destruct (back_edge_step_height fuel s f e d f' Hb Hs Hd H) as (? & Hb' & Hh & ?).
  unfold balanced in Hb'. rewrite Hh in Hb'. done.
Qed.

Lemma X7_back_edge_heights_witness :
  let e := mkEdge 4 2 (-1) in
  let f := mkFrame [[]; [mkEdge 3 0 (-1)]; []; []] 4 in
  let f' := mkFrame [[e]; []] 2 in
  2 ≤ current_height f ∧ Z.of_nat (length (stack f')) = 2 ∧ current_height f' = 2 ∧
  (1 ≤ 2 → ∃ top rest, stack f' = (top ++ [e]) :: rest).
Proof.
  intros e f f'.
  apply (X7_back_edge_heights 6 chord_sorted f f' e 2).
  - reflexivity.
  - vm_compute. discriminate.
  - vm_compute. reflexivity.
  - vm_compute. reflexivity.
Defined.

Lemma run_steps_balanced fuel s es : ∀ f f',
  balanced f → run_steps fuel s es f = Ok (Continue f') → balanced f'.
Proof.
  induction es as [|e es IH]; intros f f' Hb H; simpl in H; [by injection H as <-|].
  destruct (edge_step fuel s f e) as [[f1|]| |] eqn:E; simpl in H; try done.
  eapply IH; [|exact H]. by eapply edge_step_balanced.
Qed.

(** X8. Throughout the loop of [_test_planarity] the variable
    [current_height] is the number of buckets on the stack: this holds
    for the frame reached after any number of edges, from the empty
    stack and height 0. *)
Theorem X8_height_is_stack_length (fuel : nat) (s : Tester) (es : list Edge) (f : Frame) :
  run_steps fuel s es (mkFrame [] 0) = Ok (Continue f) →
  current_height f = Z.of_nat (length (stack f)).
Proof.
  intros H. symmetry. by apply (run_steps_balanced fuel s es (mkFrame [] 0) f).
Qed.

Lemma X8_height_is_stack_length_witness :
  current_height (mkFrame [[]; [mkEdge 3 0 (-1)]; []; []] 4)
  = Z.of_nat (length (stack (mkFrame [[]; [mkEdge 3 0 (-1)]; []; []] 4))).
Proof.
  apply (X8_height_is_stack_length 6 chord_sorted
    [mkEdge 0 1 1; mkEdge 1 2 1; mkEdge 2 3 1; mkEdge 3 0 (-1); mkEdge 3 4 1]).
  vm_compute. reflexivity.
Defined.

Lemma clean_up_empty s rest : ∀ top,
  Forall (λ b, b = []) rest → clean_up s top rest = Ok true.
Proof.
  induction rest as [|t rest IH]; intros top Hall; cbn [clean_up]; [done|].
  apply Forall_cons in Hall as [-> Hall]. simpl. by apply IH.
Qed.

Lemma test_loop_tree_edges fuel s es : ∀ f,
  Forall (λ e, sign e = 1) es → Forall (λ b, b = []) (stack f) →
  test_loop fuel s es f = Ok true.
Proof.
  induction es as [|e es IH]; intros f Hes Hf; simpl.
  - destruct (stack f) as [|top rest]; [done|].
    apply Forall_cons in Hf as [_ Hf]. by apply clean_up_empty.
  - apply Forall_cons in Hes as [He Hes]. unfold edge_step.
    rewrite (proj2 (Z.eqb_eq _ _) He). simpl. apply IH; [done|]. simpl. by constructor.
Qed.

(** X9. When the sorted edge list holds tree edges only, the test
    returns [True]: it needs no fuel, reads no array and cannot raise. *)
Theorem X9_no_back_edge_planar (fuel : nat) (s : Tester) :
  Forall (λ e, sign e = 1) (sorted_edges s) → _test_planarity fuel s = Ok true.
Proof. intros H. apply test_loop_tree_edges; [done|]. simpl. constructor. Qed.

Lemma X9_no_back_edge_planar_witness :
  _test_planarity 0 (set_sorted_edges (init 3) [mkEdge 0 1 1; mkEdge 1 2 1]) = Ok true.
Proof.
  apply X9_no_back_edge_planar. simpl. repeat constructor.
Defined.

(** ** The edge ordering again *)

Lemma decorate_set_sorted_edges s l es :
  decorate (set_sorted_edges s l) es = decorate s es.
Proof.
  induction es as [|e es IH]; simpl; [done|].
  change (edge_key (set_sorted_edges s l) e) with (edge_key s e). by rewrite IH.
Qed.

(** X10. [_sort_edges] replaces [sorted_edges], it does not add to it,
    and reads [edges] and [num] only: sorting a second time returns the
    tester of the first time. *)
Theorem X10_sort_edges_idempotent (s s' : Tester) :
  _sort_edges s = Ok s' → _sort_edges s' = Ok s'.
Proof.
  unfold _sort_edges. intros H.
  destruct (decorate s (edges s)) as [d| |] eqn:Ed; simpl in H; try done.
  injection H as <-. simpl. rewrite decorate_set_sorted_edges, Ed. done.
Qed.

Lemma X10_sort_edges_idempotent_witness : _sort_edges K5_sorted = Ok K5_sorted.
Proof.
  apply (X10_sort_edges_idempotent K5_lowpoints). vm_compute. reflexivity.
Defined.

Lemma _sort_edges_sorted s s' :
  _sort_edges s = Ok s' →
  StronglySorted (λ a b, key_le (key_of s a) (key_of s b)) (sorted_edges s') ∧
  ∀ e, e ∈ sorted_edges s' → edge_key s e = Ok (key_of s e).
Proof.
  unfold _sort_edges. intros H.
  destruct (decorate s (edges s)) as [d| |] eqn:Ed; simpl in H; try done.
  injection H as <-. simpl. apply decorate_Ok in Ed as [Hd Hall].
  assert (Forall (λ p : (Z * Z) * Edge, p.1 = key_of s p.2) (stable_sort d)) as Hd2.
  { rewrite stable_sort_perm, Hd. apply Forall_forall.
    by intros p (e & -> & _)%list_elem_of_fmap. }
  split; [apply sorted_map_snd; [done|apply stable_sort_sorted]|].
  intros e He. rewrite Forall_forall in Hall. apply Hall.
  assert (map snd (stable_sort d) ≡ₚ edges s) as Hp.
  { rewrite stable_sort_perm, Hd, map_map. simpl. by rewrite map_id. }
  by rewrite <- Hp.
Qed.

Lemma StronglySorted_lookup {A} (R : A → A → Prop) (l : list A) i j a b :
  StronglySorted R l → (i < j)%nat → l !! i = Some a → l !! j = Some b → R a b.
Proof.
  intros Hs. revert i j. induction Hs as [|x l Hl IH Hx]; intros i j Hij Hi Hj; [done|].
  destruct j as [|j]; [lia|]. simpl in Hj. destruct i as [|i]; simpl in Hi.
  - injection Hi as <-. rewrite Forall_forall in Hx. apply Hx.
    by eapply list_elem_of_lookup_2.
  - apply (IH i j); [lia|done..].
Qed.

(** X11. In the sorted list the tree edge that enters a vertex comes
    before every back edge that leaves this vertex. *)
Theorem X11_tree_edge_before_back_edges (s s' : Tester) (i j : nat) (t b : Edge) :
  _sort_edges s = Ok s' →
  sorted_edges s' !! j = Some t → sorted_edges s' !! i = Some b →
  sign t = 1 → sign b ≠ 1 → v2 t = v1 b →
  (j < i)%nat.
Proof.
  intros H Ht Hb Hst Hsb Hv.
  destruct (_sort_edges_sorted s s' H) as [Hsorted Hkeys].
  pose proof (Hkeys t (list_elem_of_lookup_2 _ _ _ Ht)) as Kt.
  pose proof (Hkeys b (list_elem_of_lookup_2 _ _ _ Hb)) as Kb.
  unfold edge_key in Kt, Kb.
  rewrite (proj2 (Z.eqb_eq _ _) Hst) in Kt. rewrite (proj2 (Z.eqb_neq _ _) Hsb) in Kb.
  rewrite Hv in Kt.
  destruct (getitem (num s) (v1 b)) as [n| |]; simpl in Kt, Kb; try done.
  injection Kt as Kt. injection Kb as Kb.
  destruct (lt_eq_lt_dec i j) as [[Hlt| ->]|Hgt]; [|congruence|done].
  pose proof (StronglySorted_lookup _ _ i j b t Hsorted Hlt Hb Ht) as Hle.
  cbv beta in Hle. rewrite <- Kt, <- Kb in Hle. unfold key_le, key_ltb in Hle. simpl in Hle.
  rewrite Z.ltb_irrefl, Z.eqb_refl in Hle. done.
Qed.

Lemma X11_tree_edge_before_back_edges_witness : (1 < 2)%nat.
Proof.
  apply (X11_tree_edge_before_back_edges K5_lowpoints K5_sorted 2 1
           (mkEdge 1 2 1) (mkEdge 2 0 (-1))).
  - vm_compute. reflexivity.
  - reflexivity.
  - reflexivity.
  - reflexivity.
  - vm_compute. discriminate.
  - reflexivity.
Defined.

(** ** Testers without a vertex *)

(** X12. With a vertex count of zero or less the four arrays are empty,
    and [is_planar] raises [IndexError] at its first assignment,
    whatever edges were added. *)
Theorem X12_no_vertex_raises (vertices : Z) (es : list (Z * Z)) (fuel : nat) :
  vertices ≤ 0 →
  ∃ s, build vertices es = Ok s ∧ is_planar (S fuel) s = Raise IndexError.
Proof.
  intros HV. destruct (add_edges_adj es (init vertices)) as (s & E & _ & Hs).
  exists s. split; [done|]. rewrite Hs. unfold is_planar. simpl.
  replace (Z.to_nat vertices) with 0%nat by lia. done.
Qed.

Lemma X12_no_vertex_raises_witness :
  ∃ s, build (-2) [(0, 1); (1, 2)] = Ok s ∧ is_planar 1 s = Raise IndexError.
Proof. apply (X12_no_vertex_raises (-2) [(0, 1); (1, 2)] 0). lia. Defined.

(** ** The first traversal *)

Lemma numbers_insert (l : list Z) i x :
  l !! i = Some (-1) → x ≠ -1 → numbers (<[i := x]> l) ≡ₚ x :: numbers l.
Proof.
  intros Hl Hx. revert i Hl. unfold numbers.
  induction l as [|y l IH]; intros [|i] Hl; simpl in *; try done.
  - injection Hl as ->. rewrite !filter_cons. rewrite decide_True by done.
    rewrite decide_False by (intros H; by apply H). done.
  - rewrite !filter_cons. case_decide; [|by apply IH].
    rewrite (IH i Hl). apply Permutation_swap.
Qed.

Lemma seqZ_snoc_perm c : 0 ≤ c → seqZ 1 (c + 1) ≡ₚ (c + 1) :: seqZ 1 c.
Proof.
  intros Hc. rewrite seqZ_app by lia. replace (1 + c) with (c + 1) by lia.
  rewrite (seqZ_cons (c + 1) 1) by lia. rewrite (seqZ_nil (Z.succ (c + 1))) by lia.
  by rewrite Permutation_app_comm.
Qed.

Lemma dfs_inv_range s i x :
  dfs_inv s → num s !! i = Some x → x ≠ -1 → 1 ≤ x ≤ counter s.
Proof.
  intros [Hn _ _] Hi Hx.
  assert (x ∈ numbers (num s)) as Hin.
  { unfold numbers. apply list_elem_of_filter. split; [done|]. by eapply list_elem_of_lookup_2. }
  rewrite Hn in Hin. apply elem_of_seqZ in Hin. lia.
Qed.

Lemma dfs_inv_counter s : wf s → dfs_inv s → 0 ≤ counter s ≤ V s.
Proof.
  intros [] [Hn _ _]. split; [done|].
  apply Permutation_length in Hn. rewrite length_seqZ in Hn.
  assert (length (numbers (num s)) ≤ length (num s))%nat as Hle by apply length_filter.
  lia.
Qed.

Lemma frozen_refl s : frozen s s.
Proof. by intros i x Hi Hx. Qed.

Lemma frozen_trans s1 s2 s3 : frozen s1 s2 → frozen s2 s3 → frozen s1 s3.
Proof.
  intros H1 H2 i x Hi Hx. destruct (H1 i x Hi Hx) as [Hn Hp].
  destruct (H2 i x Hn Hx) as [Hn' Hp']. split; [done|congruence].
Qed.

Lemma edge_recorded_frozen s s' e :
  frozen s s' → V s' = V s → graph s' = graph s →
  edge_recorded s e → edge_recorded s' e.
Proof.
  intros Hf HV Hg (H1 & H2 & Hadj & x & y & Hx & Hy & Hx1 & Hy1 & Hc).
  destruct (Hf _ _ Hx ltac:(lia)) as [Hx' Hpx]. destruct (Hf _ _ Hy ltac:(lia)) as [Hy' Hpy].
  unfold edge_recorded, adj. rewrite HV, Hg. split; [done|]. split; [done|]. split; [done|].
  exists x, y. rewrite Hpx, Hpy. done.
Qed.

Lemma numbers_loop_dfs n v :
  (∀ w s b s', wf s → dfs_inv s →
     Forall (λ e, edge_recorded s e ∨ edge_pending s w e) (edges s) →
     pre_call s w → 0 ≤ w < V s → num s !! Z.to_nat w = Some (-1) →
     _compute_numbers n w s = Ok (b, s') →
     dfs_inv s' ∧ Forall (edge_recorded s') (edges s') ∧ frozen s s' ∧
     num s' !! Z.to_nat w = Some (counter s + 1) ∧ closure_post s s') →
  ∀ ws s b s', wf s → dfs_inv s → Forall (edge_recorded s) (edges s) →
    0 ≤ v < V s → (∃ x, num s !! Z.to_nat v = Some x ∧ 1 ≤ x) →
    (∀ w, w ∈ ws → w ∈ adj s v) →
    numbers_loop (_compute_numbers n) v ws s = Ok (b, s') →
    dfs_inv s' ∧ Forall (edge_recorded s') (edges s') ∧ frozen s s' ∧
    (∀ w, w ∈ ws → ∃ y, num s' !! Z.to_nat w = Some y ∧ y ≠ -1) ∧ closure_post s s'.
Proof.
  intros Hrec ws. induction ws as [|w ws IH];
    intros s b s' Hwf Hinv Hed Hv (xv & Hxv & Hxv1) Hws H; simpl in H.
  { injection H as <- <-. split; [done|]. split; [done|]. split; [apply frozen_refl|].
    split; [by intros w ?%elem_of_nil|]. intros i x Hi Hi' Hx. congruence. }
  assert (w ∈ adj s v) as Hwadj by (apply Hws; left).
  assert (∀ w', w' ∈ ws → w' ∈ adj s v) as Hws' by (intros; apply Hws; by right).
  pose proof Hwf as [].
  assert (0 ≤ w < V s) as Hw by (by eapply wf_adj0).
  destruct (getitem_valid (num s) w) as (nw & Hnw & E); [lia|]. rewrite E in H. simpl in H.
  clear E. destruct (decide (nw = -1)) as [->|Hne].
  - (* [w] has no number: it becomes a child of [v] *)
    simpl in H. rewrite setitem_valid in H by lia. simpl in H.
    set (s1 := set_edges (set_parent s _) _) in H.
    destruct (_compute_numbers n w s1) as [[ok s2]| |] eqn:E2; simpl in H; try done.
    pose proof (_compute_numbers_frame _ _ _ _ _ E2) as [-> F2].
    assert (wf s1) as Hwf1.
    { split; simpl; try done. by rewrite length_insert. }
    assert (∀ i x, num s !! i = Some x → x ≠ -1 → Z.to_nat w ≠ i) as Hneq.
    { intros i x Hi Hx <-. congruence. }
    assert (frozen s s1) as Hfr1.
    { intros i x Hi Hx. split; [done|]. simpl.
      rewrite list_lookup_insert_ne; [done|]. by eapply Hneq. }
    assert (dfs_inv s1) as Hinv1.
    { destruct Hinv as [Hn Hp Hr]. split; simpl; [done| |].
      - intros i x Hi Hx. destruct (Hp i x Hi Hx) as (p & y & Hpi & ? & ? & ? & ?).
        exists p, y. rewrite list_lookup_insert_ne; [done|].
        apply (Hneq i x); [done|lia].
      - intros i Hi. rewrite list_lookup_insert_ne; [by apply Hr|].
        by apply (Hneq i 1). }
    assert (Forall (λ e, edge_recorded s1 e ∨ edge_pending s1 w e) (edges s1)) as Hed1.
    { simpl. apply Forall_app. split.
      - eapply Forall_impl; [exact Hed|]. intros e He. left.
        by apply (edge_recorded_frozen s s1).
      - apply Forall_singleton. right. unfold edge_pending. simpl.
        split; [done|]. split; [done|]. split; [done|]. split; [done|].
        exists xv. split; [done|]. split; [done|].
        apply list_lookup_insert_eq. lia. }
    assert (pre_call s1 w) as Hpre1.
    { right. exists v, xv. simpl. split; [apply list_lookup_insert_eq; lia|done]. }
    destruct (Hrec w s1 true s2 Hwf1 Hinv1 Hed1 Hpre1 Hw Hnw E2)
      as (Hinv2 & Hed2 & Hfr2 & Hnw2 & Hcl2).
    assert (frozen s s2) as Hfr by (by eapply frozen_trans).
    assert (wf s2) as Hwf2 by (by eapply wf_frame).
    pose proof (nf_V _ _ F2) as HV2. pose proof (nf_graph _ _ F2) as Hg2. simpl in HV2, Hg2.
    assert (∀ u, adj s2 u = adj s u) as Hadj2 by (intros u; unfold adj; by rewrite Hg2).
    destruct (IH s2 b s') as (Hinv' & Hed' & Hfr' & Hnum' & Hcl'); try done.
    { by rewrite HV2. }
    { exists xv. split; [|done]. by apply (Hfr _ _ Hxv); lia. }
    { intros w' Hw'. rewrite Hadj2. by apply Hws'. }
    split; [done|]. split; [done|]. split; [by eapply frozen_trans|]. split.
    + intros w' [->|Hw']%elem_of_cons; [|by apply Hnum'].
      exists (counter s + 1). split; [|lia]. simpl in Hnw2. apply (Hfr' _ _ Hnw2). lia.
    + intros i x Hi Hi' Hx u Hu.
      destruct (num s2 !! i) as [x2|] eqn:Hi2.
      2:{ apply lookup_ge_None in Hi2. apply lookup_lt_Some in Hi.
          rewrite (nf_num _ _ F2) in Hi2. simpl in Hi2. lia. }
      destruct (decide (x2 = -1)) as [->|Hx2].
      * apply (Hcl' i x Hi2 Hi' Hx). by rewrite Hadj2.
      * destruct (Hcl2 i x2 Hi Hi2 Hx2 u Hu) as (y & Hy & Hy1).
        exists y. split; [|done]. by apply (Hfr' _ _ Hy).
  - (* [w] has a number *)
    rewrite (proj2 (Z.eqb_neq _ _) Hne) in H.
    destruct (getitem_valid (num s) v) as (nv & Hnv & E); [lia|].
    rewrite E in H. simpl in H. clear E. rewrite Hxv in Hnv. injection Hnv as <-.
    assert (∀ s1, wf s1 → dfs_inv s1 → Forall (edge_recorded s1) (edges s1) →
      V s1 = V s → num s1 = num s → parent s1 = parent s → graph s1 = graph s →
      numbers_loop (_compute_numbers n) v ws s1 = Ok (b, s') →
      dfs_inv s' ∧ Forall (edge_recorded s') (edges s') ∧ frozen s s' ∧
      (∀ w0, w0 ∈ w :: ws → ∃ y, num s' !! Z.to_nat w0 = Some y ∧ y ≠ -1) ∧
      closure_post s s') as Hnext.
    { intros s1 Hwf1 Hinv1 Hed1 HV1 Hn1 Hp1 Hg1 H1.
      assert (∀ u, adj s1 u = adj s u) as Hadj1 by (intros u; unfold adj; by rewrite Hg1).
      destruct (IH s1 b s') as (Hinv' & Hed' & Hfr' & Hnum' & Hcl'); try done.
      { by rewrite HV1. }
      { exists xv. by rewrite Hn1. }
      { intros w' Hw'. rewrite Hadj1. by apply Hws'. }
      assert (frozen s s') as Hfr.
      { intros i x Hi Hx. rewrite <- Hn1 in Hi. rewrite <- Hp1. by apply Hfr'. }
      split; [done|]. split; [done|]. split; [done|]. split.
      - intros w' [->|Hw']%elem_of_cons; [|by apply Hnum'].
        exists nw. split; [|done]. by apply (Hfr _ _ Hnw).
      - intros i x Hi Hi' Hx u Hu. rewrite <- Hn1 in Hi.
        apply (Hcl' i x Hi Hi' Hx). by rewrite Hadj1. }
    destruct (nw <? xv) eqn:Elt; [|by apply (Hnext s)].
    destruct (getitem_valid (parent s) v) as (pv & Hpv & E); [lia|].
    rewrite E in H. simpl in H. clear E.
    destruct (w =? pv) eqn:Ewp; simpl in H; [by apply (Hnext s)|].
    set (s1 := set_edges s (edges s ++ [mkEdge v w (-1)])) in *.
    assert (wf s1) as Hwf1 by (by split).
    assert (dfs_inv s1) as Hinv1 by (by destruct Hinv).
    assert (Forall (edge_recorded s1) (edges s1)) as Hed1.
    { simpl. apply Forall_app. split; [done|]. apply Forall_singleton.
      unfold edge_recorded. simpl. split; [done|]. split; [done|]. split; [done|].
      exists xv, nw. split; [done|]. split; [done|]. split; [done|].
      split; [by eapply dfs_inv_range|]. right.
      split; [done|]. split; [lia|]. rewrite Hpv. intros [= <-].
      by rewrite Z.eqb_refl in Ewp. }
    by apply (Hnext s1).
Qed.

Lemma _compute_numbers_dfs n : ∀ v s b s',
  wf s → dfs_inv s →
  Forall (λ e, edge_recorded s e ∨ edge_pending s v e) (edges s) →
  pre_call s v → 0 ≤ v < V s → num s !! Z.to_nat v = Some (-1) →
  _compute_numbers n v s = Ok (b, s') →
  dfs_inv s' ∧ Forall (edge_recorded s') (edges s') ∧ frozen s s' ∧
  num s' !! Z.to_nat v = Some (counter s + 1) ∧ closure_post s s'.
Proof.
  induction n as [|n IH]; intros v s b s' Hwf Hinv Hed Hpre Hv Hnv H; simpl in H; [done|].
  pose proof Hwf as []. pose proof (dfs_inv_counter s Hwf Hinv) as Hc.
  rewrite setitem_valid in H by lia. simpl in H.
  set (s0 := set_num (set_counter s (counter s + 1)) _) in H.
  assert (∀ i x, num s !! i = Some x → x ≠ -1 → Z.to_nat v ≠ i) as Hneq.
  { intros i x Hi Hx <-. congruence. }
  assert (wf s0) as Hwf0.
  { split; simpl; try done; [by rewrite length_insert|lia]. }
  assert (frozen s s0) as Hfr0.
  { intros i x Hi Hx. simpl. split; [|done].
    rewrite list_lookup_insert_ne; [done|]. by eapply Hneq. }
  assert (num s0 !! Z.to_nat v = Some (counter s + 1)) as Hv0.
  { simpl. apply list_lookup_insert_eq. lia. }
  assert (dfs_inv s0) as Hinv0.
  { split; simpl.
    - rewrite numbers_insert by (done || lia). rewrite seqZ_snoc_perm by lia.
      by rewrite (di_numbers _ Hinv).
    - intros i x Hi Hx. destruct (decide (Z.to_nat v = i)) as [<-|Hne].
      + rewrite list_lookup_insert_eq in Hi by lia. injection Hi as <-.
        destruct Hpre as [[Hc0 _]|(p & y & Hp & Hpv & Hy & Hy1 & Hadj)]; [lia|].
        exists p, y. split; [done|]. split; [done|].
        pose proof (dfs_inv_range s _ _ Hinv Hy ltac:(lia)).
        rewrite list_lookup_insert_ne by (eapply Hneq; [exact Hy|lia]).
        split; [done|]. split; [lia|]. by rewrite Z2Nat.id by lia.
      + rewrite list_lookup_insert_ne in Hi by done.
        destruct (di_parent _ Hinv i x Hi Hx) as (p & y & Hp & Hpv & Hy & Hy1 & Hadj).
        exists p, y. rewrite list_lookup_insert_ne by (eapply Hneq; [exact Hy|lia]). done.
    - intros i Hi. destruct (decide (Z.to_nat v = i)) as [<-|Hne].
      + rewrite list_lookup_insert_eq in Hi by lia. injection Hi as Hi.
        destruct Hpre as [[_ Hp]|(p & y & Hp & Hpv & Hy & Hy1 & Hadj)]; [done|].
        pose proof (dfs_inv_range s _ _ Hinv Hy ltac:(lia)). lia.
      + rewrite list_lookup_insert_ne in Hi by done. by apply (di_root _ Hinv). }
  assert (Forall (edge_recorded s0) (edges s0)) as Hed0.
  { simpl. eapply Forall_impl; [exact Hed|]. intros e [He|He].
    - by apply (edge_recorded_frozen s s0).
    - destruct He as (Hs & Hv2 & Hv1 & Hadj & x & Hx & Hx1 & Hp).
      pose proof (dfs_inv_range s _ _ Hinv Hx ltac:(lia)).
      unfold edge_recorded. rewrite Hv2. simpl.
      split; [done|]. split; [done|]. split; [done|].
      exists x, (counter s + 1).
      rewrite list_lookup_insert_ne by (eapply Hneq; [exact Hx|lia]).
      split; [done|]. split; [apply list_lookup_insert_eq; lia|].
      split; [done|]. split; [lia|]. left. split; [done|]. split; [lia|done]. }
  destruct (numbers_loop_dfs n v IH (adj s0 v) s0 b s')
    as (Hinv' & Hed' & Hfr' & Hnum' & Hcl'); try done.
  { exists (counter s + 1). split; [done|lia]. }
  split; [done|]. split; [done|]. split; [by eapply frozen_trans|].
  split; [apply (Hfr' _ _ Hv0); lia|].
  intros i x Hi Hi' Hx u Hu. destruct (decide (Z.to_nat v = i)) as [<-|Hne].
  - rewrite Z2Nat.id in Hu by lia. by apply Hnum'.
  - apply (Hcl' i x); [|done..]. simpl. by rewrite list_lookup_insert_ne.
Qed.

Lemma fresh_dfs_inv s : fresh s → dfs_inv s.
Proof.
  intros ->. split; simpl.
  - unfold numbers. induction (Z.to_nat _) as [|k IHk]; simpl; [done|].
    rewrite filter_cons. rewrite decide_False by (intros H; by apply H). done.
  - intros i x [-> _]%lookup_replicate. lia.
  - by intros i [? _]%lookup_replicate.
Qed.

(** The first numbering of a new, well-formed tester, with everything
    the traversal establishes. *)
Lemma first_numbering s k :
  wf s → fresh s → 0 < V s →
  ∃ s1, _compute_numbers (S (Z.to_nat (V s)) + k) 0 s = Ok (true, s1) ∧
    wf s1 ∧ numbering_frame s s1 ∧ dfs_inv s1 ∧
    Forall (edge_recorded s1) (edges s1) ∧
    num s1 !! 0%nat = Some 1 ∧ closure_post s s1.
Proof.
  intros Hwf Hfr HV.
  destruct (_compute_numbers_root_total s k Hwf HV) as (s1 & E & Hwf1 & F).
  exists s1. split; [done|]. split; [done|]. split; [done|].
  assert (num s !! Z.to_nat 0 = Some (-1) ∧ parent s !! Z.to_nat 0 = Some (-1) ∧
          counter s = 0 ∧ edges s = []) as (Hn & Hp & Hc & He).
  { rewrite Hfr. simpl. rewrite !lookup_replicate. split_and!; try done; lia. }
  assert (Forall (λ e, edge_recorded s e ∨ edge_pending s 0 e) (edges s)) as Hed0
    by (rewrite He; constructor).
  assert (pre_call s 0) as Hpre by (by left).
  destruct (_compute_numbers_dfs _ 0 s true s1 Hwf (fresh_dfs_inv s Hfr) Hed0 Hpre
              ltac:(lia) Hn E) as (Hinv & Hed & _ & H0 & Hcl).
  rewrite Hc in H0. done.
Qed.

Lemma wf_fresh_build vertices es s :
  0 ≤ vertices →
  Forall (λ e, (0 ≤ e.1 < vertices) ∧ (0 ≤ e.2 < vertices)) es →
  build vertices es = Ok s → wf s ∧ fresh s ∧ V s = vertices.
Proof.
  intros HV Hes H. destruct (wf_build vertices es s HV Hes H) as [Hwf HVs].
  split; [done|]. split; [|done].
  destruct (add_edges_adj es (init vertices)) as (s' & E & _ & Hs').
  unfold build in H. rewrite E in H. injection H as ->.
  unfold fresh. rewrite HVs. exact Hs'.
Qed.

Lemma fresh_triangle : wf triangle ∧ fresh triangle ∧ V triangle = 3.
Proof.
  apply (wf_fresh_build 3 [(0, 1); (1, 2); (0, 2)]); [lia| |vm_compute; reflexivity].
  repeat (apply Forall_cons; split; [simpl; lia|]). by apply Forall_nil.
Qed.

Lemma fresh_K5_demo : wf K5_demo ∧ fresh K5_demo ∧ V K5_demo = 5.
Proof.
  apply (wf_fresh_build 5 (complete_pairs 0 5)); [lia| |vm_compute; reflexivity].
  repeat (apply Forall_cons; split; [simpl; lia|]). by apply Forall_nil.
Qed.

(** X13. The first traversal of a new tester numbers the vertices it
    reaches 1, 2, ..., [counter], each number once: the numbers in [num]
    are a permutation of 1..counter, vertex 0 has number 1, and
    [counter], the count of numbered vertices, is at most [V]. *)
Theorem X13_numbers_consecutive (s : Tester) (k : nat) :
  wf s → fresh s → 0 < V s →
  ∃ s1, _compute_numbers (S (Z.to_nat (V s)) + k) 0 s = Ok (true, s1) ∧
    numbers (num s1) ≡ₚ seqZ 1 (counter s1) ∧
    num s1 !! 0%nat = Some 1 ∧
    1 ≤ counter s1 ≤ V s.
Proof.
  intros Hwf Hfr HV.
  destruct (first_numbering s k Hwf Hfr HV) as (s1 & E & Hwf1 & F & Hinv & _ & H0 & _).
  exists s1. split; [done|]. split; [apply Hinv|]. split; [done|].
  pose proof (dfs_inv_counter s1 Hwf1 Hinv). rewrite (nf_V _ _ F) in *.
  pose proof (dfs_inv_range s1 _ _ Hinv H0 ltac:(lia)). lia.
Qed.

Lemma X13_numbers_consecutive_witness :
  ∃ s1, _compute_numbers 6 0 K5_demo = Ok (true, s1) ∧
    numbers (num s1) ≡ₚ seqZ 1 (counter s1) ∧
    num s1 !! 0%nat = Some 1 ∧
    1 ≤ counter s1 ≤ 5.
Proof.
  destruct fresh_K5_demo as (Hwf & Hfr & HV).
  refine (X13_numbers_consecutive K5_demo 0 Hwf Hfr _). rewrite HV. lia.
Defined.

(** X14. After the first traversal every numbered vertex other than the
    root has a parent: a vertex [p] of [0, V) in whose adjacency list it
    occurs and whose number is smaller. The vertex numbered 1, the root,
    has parent [-1]. *)
Theorem X14_parents (s : Tester) (k : nat) :
  wf s → fresh s → 0 < V s →
  ∃ s1, _compute_numbers (S (Z.to_nat (V s)) + k) 0 s = Ok (true, s1) ∧
    parent s1 !! 0%nat = Some (-1) ∧
    ∀ i x, num s1 !! i = Some x → x ≠ -1 → x ≠ 1 →
      ∃ p y, parent s1 !! i = Some p ∧ 0 ≤ p < V s ∧
        num s1 !! Z.to_nat p = Some y ∧ 1 ≤ y < x ∧ Z.of_nat i ∈ adj s p.
Proof.
  intros Hwf Hfr HV.
  destruct (first_numbering s k Hwf Hfr HV) as (s1 & E & Hwf1 & F & Hinv & _ & H0 & _).
  exists s1. split; [done|]. split; [by apply (di_root _ Hinv)|].
  intros i x Hi Hx Hx1. pose proof (dfs_inv_range s1 _ _ Hinv Hi Hx).
  destruct (di_parent _ Hinv i x Hi ltac:(lia)) as (p & y & ? & ? & ? & ? & Hadj).
  exists p, y. rewrite <- (nf_V _ _ F). unfold adj in *. rewrite <- (nf_graph _ _ F). done.
Qed.

Lemma X14_parents_witness :
  ∃ s1, _compute_numbers 6 0 K5_demo = Ok (true, s1) ∧
    parent s1 !! 0%nat = Some (-1) ∧
    ∀ i x, num s1 !! i = Some x → x ≠ -1 → x ≠ 1 →
      ∃ p y, parent s1 !! i = Some p ∧ 0 ≤ p < 5 ∧
        num s1 !! Z.to_nat p = Some y ∧ 1 ≤ y < x ∧ Z.of_nat i ∈ adj K5_demo p.
Proof.
  destruct fresh_K5_demo as (Hwf & Hfr & HV).
  refine (X14_parents K5_demo 0 Hwf Hfr _). rewrite HV. lia.
Defined.

(** X15. After the first traversal every recorded edge [(v, w)] joins
    two numbered vertices of [0, V) with [w] in the adjacency list of
    [v], and its sign is 1 or -1: a tree edge has [parent[w] = v] and
    [num[v] < num[w]]; a back edge has [num[w] < num[v]] and
    [w != parent[v]]. *)
Theorem X15_edge_classification (s : Tester) (k : nat) :
  wf s → fresh s → 0 < V s →
  ∃ s1, _compute_numbers (S (Z.to_nat (V s)) + k) 0 s = Ok (true, s1) ∧
    Forall (edge_recorded s1) (edges s1).
Proof.
  intros Hwf Hfr HV.
  destruct (first_numbering s k Hwf Hfr HV) as (s1 & E & _ & _ & _ & Hed & _).
  by exists s1.
Qed.

Lemma X15_edge_classification_witness :
  ∃ s1, _compute_numbers 6 0 K5_demo = Ok (true, s1) ∧
    Forall (edge_recorded s1) (edges s1).
Proof.
  destruct fresh_K5_demo as (Hwf & Hfr & HV).
  refine (X15_edge_classification K5_demo 0 Hwf Hfr _). rewrite HV. lia.
Defined.

(** X16. The first traversal numbers exactly the vertices that can be
    reached from vertex 0: vertex 0 is numbered, every neighbour of a
    numbered vertex is numbered, and the numbered vertices lie in every
    set of vertices that contains 0 and is closed under adjacency. *)
Theorem X16_numbers_the_component (s : Tester) (k : nat) :
  wf s → fresh s → 0 < V s →
  ∃ s1, _compute_numbers (S (Z.to_nat (V s)) + k) 0 s = Ok (true, s1) ∧
    visited s1 0 ∧
    (∀ v w, 0 ≤ v < V s → visited s1 v → w ∈ adj s v → visited s1 w) ∧
    (∀ C : Z → Prop, C 0 → (∀ v w, C v → w ∈ adj s v → C w) →
       ∀ v, 0 ≤ v < V s → visited s1 v → C v).
Proof.
  intros Hwf Hfr HV.
  destruct (first_numbering s k Hwf Hfr HV) as (s1 & E & Hwf1 & F & Hinv & _ & H0 & Hcl).
  exists s1. split; [done|]. split; [|split].
  - exists 1. split; [done|lia].
  - intros v w Hv (x & Hx & Hx1) Hw. unfold visited.
    apply (Hcl (Z.to_nat v) x); [|done..|by rewrite Z2Nat.id by lia].
    rewrite Hfr. simpl. apply lookup_replicate. split; [done|]. lia.
  - intros C HC0 Hclosed v Hv (x & Hx & Hx1).
    set (C' := λ u, 0 ≤ u < V s ∧ C u).
    assert (∀ u, C' u → 0 ≤ u) as Hnn by (intros u [? _]; lia).
    assert (∀ u w, C' u → w ∈ default [] (graph s !! u) → C' w) as Hcl'.
    { intros u w [Hu HCu] Hw. split; [by eapply (wf_adj _ Hwf)|by eapply Hclosed]. }
    assert (numbered_in C' s) as Hin0.
    { intros i y Hi Hy. rewrite Hfr in Hi. simpl in Hi.
      apply lookup_replicate in Hi as [-> _]. done. }
    assert (C' 0) as HC0' by (split; [lia|done]).
    pose proof (_compute_numbers_numbered (graph s) C' Hnn Hcl' _ 0 s true s1
                  HC0' eq_refl Hin0 E) as Hin.
    destruct (Hin (Z.to_nat v) x Hx Hx1) as [_ HCv]. by rewrite Z2Nat.id in HCv by lia.
Qed.

Lemma X16_numbers_the_component_witness :
  ∃ s1, _compute_numbers 7 0 isolated_plus_K5 = Ok (true, s1) ∧
    visited s1 0 ∧
    (∀ v w, 0 ≤ v < 6 → visited s1 v → w ∈ adj isolated_plus_K5 v → visited s1 w) ∧
    (∀ C : Z → Prop, C 0 → (∀ v w, C v → w ∈ adj isolated_plus_K5 v → C w) →
       ∀ v, 0 ≤ v < 6 → visited s1 v → C v).
Proof.
  assert (wf isolated_plus_K5 ∧ fresh isolated_plus_K5 ∧ V isolated_plus_K5 = 6)
    as (Hwf & Hfr & HV).
  { apply (wf_fresh_build 6 (complete_pairs 1 6)); [lia| |vm_compute; reflexivity].
    repeat (apply Forall_cons; split; [simpl; lia|]). by apply Forall_nil. }
  refine (X16_numbers_the_component isolated_plus_K5 0 Hwf Hfr _). rewrite HV. lia.
Defined.

(** ** [is_planar] on a new tester ends with a boolean *)

Lemma dfs_inv_ext s s' :
  V s' = V s → graph s' = graph s → num s' = num s → parent s' = parent s →
  counter s' = counter s → dfs_inv s → dfs_inv s'.
Proof.
  intros HV Hg Hn Hp Hc [H1 H2 H3]. split; unfold adj in *; rewrite ?HV, ?Hg, ?Hn, ?Hp, ?Hc; done.
Qed.

Lemma edge_recorded_ext s s' e :
  V s' = V s → graph s' = graph s → num s' = num s → parent s' = parent s →
  edge_recorded s e → edge_recorded s' e.
Proof.
  intros HV Hg Hn Hp H. unfold edge_recorded, adj in *. rewrite HV, Hg, Hn, Hp. done.
Qed.

Lemma edge_recorded_valid s e : edge_recorded s e → edge_valid s e.
Proof. intros (? & ? & _). by split. Qed.

Lemma nesting_loop_total s w y :
  wf s → dfs_inv s → 0 ≤ w < V s → num s !! Z.to_nat w = Some y → 1 ≤ y →
  ∀ fuel v x d0, 0 ≤ v < V s → num s !! Z.to_nat v = Some x → 1 ≤ x →
    (Z.to_nat x < fuel)%nat →
    ∃ d, nesting_loop fuel s v w d0 = Ok d ∧
      d0 ≤ d ≤ d0 + Z.max 0 (x - y) ∧ (y < x → d0 + 1 ≤ d).
Proof.
  intros Hwf Hinv Hw Hy Hy1 fuel. pose proof Hwf as [].
  induction fuel as [|fuel IH]; intros v x d0 Hv Hx Hx1 Hfuel; [lia|]. simpl.
  read_valid (num s) v x' Hx'. rewrite Hx in Hx'. injection Hx' as <-.
  read_valid (num s) w y' Hy'. rewrite Hy in Hy'. injection Hy' as <-.
  rewrite Z.gtb_ltb. destruct (Z.ltb_spec y x) as [Hlt|Hge].
  - destruct (di_parent _ Hinv _ _ Hx ltac:(lia)) as (p & yp & Hp & Hpv & Hyp & Hyp1 & _).
    read_valid (parent s) v p' Hp'. rewrite Hp in Hp'. injection Hp' as <-.
    destruct (IH p yp (d0 + 1) Hpv Hyp ltac:(lia) ltac:(lia)) as (d & E & Hd & _).
    exists d. split; [done|]. lia.
  - exists d0. split; [done|]. lia.
Qed.

Lemma _edges_cross_total s e1 e2 :
  wf s → edge_valid s e1 → edge_valid s e2 → ∃ c, _edges_cross s e1 e2 = Ok c.
Proof.
  intros [] [? ?] [? ?]. unfold _edges_cross.
  read_valid (num s) (v1 e1) a1 Ha1. read_valid (num s) (v2 e1) b1 Hb1.
  destruct (b1 <? a1); simpl;
    read_valid (num s) (v1 e2) a2 Ha2; read_valid (num s) (v2 e2) b2 Hb2;
    destruct (b2 <? a2); simpl; eauto.
Qed.

Lemma crosses_any_total s e1 t :
  wf s → edge_valid s e1 → Forall (edge_valid s) t → ∃ c, crosses_any s e1 t = Ok c.
Proof.
  intros Hwf He1. induction 1 as [|e2 t He2 Ht IH]; simpl; [eauto|].
  destruct (_edges_cross_total s e1 e2 Hwf He1 He2) as [c ->]. simpl.
  destruct c; eauto.
Qed.

Lemma bucket_crosses_total s b t :
  wf s → Forall (edge_valid s) b → Forall (edge_valid s) t →
  ∃ c, bucket_crosses s b t = Ok c.
Proof.
  intros Hwf Hb Ht. induction Hb as [|e1 b He1 Hb IH]; simpl; [eauto|].
  destruct (crosses_any_total s e1 t Hwf He1 Ht) as [c ->]. simpl.
  destruct c; eauto.
Qed.

Lemma _merge_edges_total s b t :
  wf s → Forall (edge_valid s) b → Forall (edge_valid s) t →
  ∃ ok t', _merge_edges s b (Some t) = Ok (ok, Some t') ∧ Forall (edge_valid s) t'.
Proof.
  intros Hwf Hb Ht. unfold _merge_edges. destruct t as [|e t]; [eauto|].
  destruct (bucket_crosses_total s b (e :: t) Hwf Hb Ht) as [c ->]. simpl.
  destruct c; [eauto|]. eexists _, _. split; [done|].
  by apply (Forall_app _ (e :: t) b).
Qed.

(** The edges in the buckets of a frame are between vertices of [0, V). *)
Lemma unwind_total s height rest : ∀ top h,
  wf s → 0 ≤ height → Forall (edge_valid s) top → Forall (Forall (edge_valid s)) rest →
  ∃ r, unwind s height top rest h = Ok r ∧
    match r with
    | Continue f' => Forall (Forall (edge_valid s)) (stack f')
    | NonPlanar => True
    end.
Proof.
  induction rest as [|t rest IH]; intros top h Hwf Hh Htop Hrest; cbn [unwind];
    rewrite Z.gtb_ltb.
  - destruct (height <? _); simpl.
    + rewrite Z.gtb_ltb. destruct (Z.ltb_spec height 0); [lia|].
      eexists. split; [done|]. simpl. constructor.
    + eexists. split; [done|]. simpl. by constructor.
  - apply Forall_cons in Hrest as [Ht Hrest]. destruct (height <? _).
    + destruct (_merge_edges_total s top t Hwf Htop Ht) as (ok & t' & -> & Ht'). simpl.
      destruct ok; [by apply IH|]. by exists NonPlanar.
    + eexists. split; [done|]. simpl. by repeat constructor.
Qed.

Lemma edge_step_total fuel s f e :
  wf s → dfs_inv s → edge_recorded s e → Forall (Forall (edge_valid s)) (stack f) →
  (Z.to_nat (V s) < fuel)%nat →
  ∃ r, edge_step fuel s f e = Ok r ∧
    match r with
    | Continue f' => Forall (Forall (edge_valid s)) (stack f')
    | NonPlanar => True
    end.
Proof.
  intros Hwf Hinv He Hf Hfuel. unfold edge_step.
  destruct (sign e =? 1).
  { eexists. split; [done|]. simpl. by repeat constructor. }
  unfold back_edge_step, _compute_nesting_depth.
  pose proof He as (Hv1 & Hv2 & _ & x & y & Hx & Hy & Hx1 & Hy1 & _).
  pose proof (dfs_inv_range s _ _ Hinv Hx ltac:(lia)) as Hxr.
  pose proof (dfs_inv_counter s Hwf Hinv) as Hc.
  destruct (nesting_loop_total s (v2 e) y Hwf Hinv Hv2 Hy Hy1 fuel (v1 e) x 0 Hv1 Hx Hx1
              ltac:(lia)) as (d & -> & Hd & _). simpl.
  destruct (d >? current_height f); [by exists NonPlanar|].
  assert (∃ r, match stack f with
               | [] => if 0 >? d then Raise IndexError else Ok (Continue f)
               | top :: rest => unwind s d top rest (current_height f)
               end = Ok r ∧
               match r with
               | Continue f' => Forall (Forall (edge_valid s)) (stack f')
               | NonPlanar => True
               end) as (r & -> & Hr).
  { destruct (stack f) as [|top rest] eqn:Es.
    - rewrite Z.gtb_ltb. destruct (Z.ltb_spec d 0); [lia|]. exists (Continue f).
      split; [done|]. simpl. rewrite Es. constructor.
    - apply Forall_cons in Hf as [Htop Hrest]. apply unwind_total; try done. lia. }
  simpl. destruct r as [f'|]; [|by exists NonPlanar].
  destruct (stack f') as [|top rest] eqn:Es'.
  - exists (Continue f'). split; [done|]. simpl. rewrite Es'. constructor.
  - eexists. split; [done|]. simpl. apply Forall_cons in Hr as [Htop Hrest].
    constructor; [|done]. apply Forall_app. split; [done|].
    apply Forall_singleton. by apply edge_recorded_valid.
Qed.

Lemma clean_up_total s rest : ∀ top,
  wf s → Forall (edge_valid s) top → Forall (Forall (edge_valid s)) rest →
  ∃ b, clean_up s top rest = Ok b.
Proof.
  induction rest as [|t rest IH]; intros top Hwf Htop Hrest; cbn [clean_up]; [eauto|].
  apply Forall_cons in Hrest as [Ht Hrest].
  destruct (_merge_edges_total s top t Hwf Htop Ht) as (ok & t' & -> & Ht'). simpl.
  destruct ok; [by apply IH|eauto].
Qed.

Lemma test_loop_total fuel s es : ∀ f,
  wf s → dfs_inv s → Forall (edge_recorded s) es →
  Forall (Forall (edge_valid s)) (stack f) → (Z.to_nat (V s) < fuel)%nat →
  ∃ b, test_loop fuel s es f = Ok b.
Proof.
  induction es as [|e es IH]; intros f Hwf Hinv Hes Hf Hfuel; simpl.
  - destruct (stack f) as [|top rest]; [eauto|].
    apply Forall_cons in Hf as [? ?]. by apply clean_up_total.
  - apply Forall_cons in Hes as [He Hes].
    destruct (edge_step_total fuel s f e Hwf Hinv He Hf Hfuel) as (r & -> & Hr). simpl.
    destruct r as [f'|]; [by apply IH|eauto].
Qed.

Lemma decorate_total s es :
  wf s → Forall (edge_valid s) es → ∃ d, decorate s es = Ok d.
Proof.
  intros Hwf. pose proof Hwf as []. induction 1 as [|e es [? ?] Hes [d IH]]; simpl; [eauto|].
  unfold edge_key. destruct (sign e =? 1).
  - read_valid (num s) (v2 e) n Hn. rewrite IH. simpl. eauto.
  - read_valid (num s) (v1 e) n Hn. rewrite IH. simpl. eauto.
Qed.

(** X17. On a new tester whose edges were added between vertices of
    [0, V), with at least one vertex, [is_planar] returns a boolean: no
    phase raises an exception, and the traversal and every walk up the
    parent chain end, within [V + 1] units of fuel. *)
Theorem X17_is_planar_returns (s : Tester) (k : nat) :
  wf s → fresh s → 0 < V s →
  ∃ b s', is_planar (S (Z.to_nat (V s)) + k) s = Ok (b, s').
Proof.
  intros Hwf Hfr HV.
  destruct (first_numbering s k Hwf Hfr HV) as (s1 & E & Hwf1 & F & Hinv & Hed & _ & _).
  unfold is_planar. rewrite E. simpl.
  destruct (_compute_lowpoints_spec s1 Hwf1) as (s2 & -> & Hwf2 & [] & _). simpl.
  assert (dfs_inv s2) as Hinv2 by (by apply (dfs_inv_ext s1)).
  assert (Forall (edge_recorded s2) (edges s2)) as Hed2.
  { rewrite lf_edges0. eapply Forall_impl; [exact Hed|].
    intros e He. by apply (edge_recorded_ext s1). }
  destruct (decorate_total s2 (edges s2) Hwf2) as [d Ed].
  { eapply Forall_impl; [exact Hed2|]. apply edge_recorded_valid. }
  unfold _sort_edges. rewrite Ed. simpl.
  set (s3 := set_sorted_edges s2 _).
  assert (sorted_edges s3 ≡ₚ edges s2) as Hperm.
  { simpl. apply decorate_Ok in Ed as [-> _]. rewrite stable_sort_perm, map_map. simpl.
    by rewrite map_id. }
  destruct (test_loop_total (S (Z.to_nat (V s)) + k) s3 (sorted_edges s3) (mkFrame [] 0))
    as [b Eb].
  - destruct Hwf2. by split.
  - by destruct Hinv2.
  - rewrite Hperm. exact Hed2.
  - simpl. constructor.
  - simpl. rewrite lf_V0, (nf_V _ _ F). lia.
  - unfold _test_planarity. simpl in Eb |- *. rewrite Eb. simpl. eauto.
Qed.

Lemma X17_is_planar_returns_witness :
  ∃ b s', is_planar 6 K5_demo = Ok (b, s').
Proof.
  destruct fresh_K5_demo as (Hwf & Hfr & HV).
  refine (X17_is_planar_returns K5_demo 0 Hwf Hfr _). rewrite HV. lia.
Defined.

(** X18. For every back edge [(v, w)] the first traversal records, the
    walk of [_compute_nesting_depth] ends, and the depth it returns is
    at least 1 and at most [num[v] - num[w]]. *)
Theorem X18_nesting_depth_bounds (s : Tester) (k : nat) :
  wf s → fresh s → 0 < V s →
  ∃ s1, _compute_numbers (S (Z.to_nat (V s)) + k) 0 s = Ok (true, s1) ∧
    ∀ e, e ∈ edges s1 → sign e ≠ 1 →
      ∃ d x y, _compute_nesting_depth (S (Z.to_nat (V s)) + k) s1 e = Ok d ∧
        num s1 !! Z.to_nat (v1 e) = Some x ∧ num s1 !! Z.to_nat (v2 e) = Some y ∧
        1 ≤ d ≤ x - y.
Proof.
  intros Hwf Hfr HV.
  destruct (first_numbering s k Hwf Hfr HV) as (s1 & E & Hwf1 & F & Hinv & Hed & _ & _).
  exists s1. split; [done|]. intros e He Hs.
  rewrite Forall_forall in Hed.
  destruct (Hed e He) as (Hv1 & Hv2 & _ & x & y & Hx & Hy & Hx1 & Hy1 & [[? _]|(_ & Hlt & _)]);
    [done|].
  pose proof (dfs_inv_range s1 _ _ Hinv Hx ltac:(lia)) as Hxr.
  pose proof (dfs_inv_counter s1 Hwf1 Hinv) as Hc. rewrite (nf_V _ _ F) in Hc.
  destruct (nesting_loop_total s1 (v2 e) y Hwf1 Hinv Hv2 Hy Hy1 (S (Z.to_nat (V s)) + k)
              (v1 e) x 0 Hv1 Hx Hx1 ltac:(lia)) as (d & Ed & Hd & Hd1).
  exists d, x, y. split; [done|]. split; [done|]. split; [done|]. lia.
Qed.

Lemma X18_nesting_depth_bounds_witness :
  ∃ s1, _compute_numbers 6 0 K5_demo = Ok (true, s1) ∧
    ∀ e, e ∈ edges s1 → sign e ≠ 1 →
      ∃ d x y, _compute_nesting_depth 6 s1 e = Ok d ∧
        num s1 !! Z.to_nat (v1 e) = Some x ∧ num s1 !! Z.to_nat (v2 e) = Some y ∧
        1 ≤ d ≤ x - y.
Proof.
  destruct fresh_K5_demo as (Hwf & Hfr & HV).
  refine (X18_nesting_depth_bounds K5_demo 0 Hwf Hfr _). rewrite HV. lia.
Defined.
